(** * Real-Debrid downloader of riven: cache resolution, reuse check and binding

    Shallow embedding of [src/program/downloaders/realdebrid.py]
    (class [RealDebridDownloader]) and the properties its design document
    states about it.

    Python objects are mutable and the methods talk to a remote service, so
    every method is embedded in a state-and-exception monad [M]:
    - the state carries the remote side (an abstract world [W] stepped by
      the transport), the media item under resolution (the Python [item]
      reference), [self.active_stream], and a log of observable events
      (requests handed to the transport, logger calls, sleeps and calls of
      the file finder);
    - a computation ends in [Ret v] or in [Raise e], as a Python call
      returns or raises.

    The methods take the item as a parameter; here the item is the state
    component [item], read where the Python code reads the object and
    written where it calls [set] or [blacklist_stream].

    Dictionaries that are iterated ([cached_hashes.items()],
    [provider.values()], [container.items()]) are association lists in
    iteration order; dictionaries that are only written and looked up
    ([return_dict], the result of [get_torrents]) are [gmap]s.

    Provider payloads are typed as the code uses them: an availability
    entry is a dictionary from hoster to containers or some value that is
    not a dictionary; a torrent-info record is a dictionary whose keys may
    be missing. Exceptions are instances of Python's [Exception], the ones
    [except Exception] catches. A logger call is recorded with its level
    and its message template. *)

From Stdlib Require Import ZArith Ascii.
From stdpp Require Import gmap strings list fin_maps.
From stdpp Require Import pretty.

Local Open Scope string_scope.
Local Open Scope list_scope.

(** ** Values exchanged with the provider *)

(** A file id is a JSON object key in an availability container and a number
    in a torrent's info record. *)
Inductive file_id :=
| IdKey (key : string)
| IdNum (n : Z).

(** One entry of an availability container, before it is tagged with its id:
    [{"filename": ..., "filesize": ...}]. *)
Record avail_file := { a_filename : string; a_filesize : Z }.

(** One entry of [info["files"]]:
    [{"id": ..., "path": ..., "bytes": ..., "selected": ...}]. *)
Record info_file := { f_id : Z; f_path : string; f_bytes : Z; f_selected : bool }.

(** The dictionary with keys [filename], [filesize], [id] that the
    downloader builds for the finder. *)
Record candidate := { filename : string; filesize : Z; id : file_id }.

(** What is handed to [find_required_files]: a list of file dictionaries,
    either candidates or, on one path of [set_active_files], the raw entries
    of [info["files"]]. *)
Inductive pyfile :=
| Candidate (c : candidate)
| RawInfo (f : info_file).

(** A container maps file ids to files; it is iterated, so it is kept in
    order. *)
Definition container := list (string * avail_file).

(** A payload that is not a dictionary ([type(provider) != dict]). *)
Inductive non_dict :=
| JNull
| JBool (b : bool)
| JNum (n : Z)
| JStr (s : string)
| JList (items : list string).

(** The availability payload of one hash: a dictionary from hoster to a list
    of containers, or anything else. *)
Inductive provider :=
| Hosters (hosters : list (string * list container))
| NotDict (payload : non_dict).

(** The dictionary returned by the instant-availability endpoint. *)
Definition availability := list (string * provider).

(** The record returned by the torrent-info endpoint: a dictionary whose
    keys may be absent; [{}] has none of them. *)
Record torrent_info := {
  i_files : option (list info_file);
  i_filename : option string;
  i_original_filename : option string
}.

Definition empty_info : torrent_info :=
  {| i_files := None; i_filename := None; i_original_filename := None |}.

(** One entry of the account's torrent listing (a [SimpleNamespace]). *)
Record Torrent := { torrent_id : string; torrent_hash : string }.

(** ** Media items *)

Record Stream := { infohash : string; raw_title : string }.

Global Instance Stream_eq_dec : EqDecision Stream.
Proof. solve_decision. Defined.

Inductive field := folder | alternative_folder | file.

Record ItemCore := {
  log_string : string;
  streams : list Stream;
  blacklisted_streams : list Stream;
  item_folder : option string;
  item_alternative_folder : option string;
  item_file : option string
}.

Record Episode := { episode_core : ItemCore; episode_number : nat }.
Record Season := { season_core : ItemCore; season_number : nat; episodes : list Episode }.
Record Show := { show_core : ItemCore; seasons : list Season }.

Inductive MediaItem :=
| MovieItem (c : ItemCore)
| ShowItem (s : Show)
| SeasonItem (s : Season)
| EpisodeItem (e : Episode).

Definition core (item : MediaItem) : ItemCore :=
  match item with
  | MovieItem c => c
  | ShowItem s => show_core s
  | SeasonItem s => season_core s
  | EpisodeItem e => episode_core e
  end.

(** [item.type] *)
Definition type (item : MediaItem) : string :=
  match item with
  | MovieItem _ => "movie"
  | ShowItem _ => "show"
  | SeasonItem _ => "season"
  | EpisodeItem _ => "episode"
  end.

Definition core_set (f : field) (v : string) (c : ItemCore) : ItemCore :=
  match f with
  | folder =>
      {| log_string := log_string c; streams := streams c;
         blacklisted_streams := blacklisted_streams c;
         item_folder := Some v;
         item_alternative_folder := item_alternative_folder c;
         item_file := item_file c |}
  | alternative_folder =>
      {| log_string := log_string c; streams := streams c;
         blacklisted_streams := blacklisted_streams c;
         item_folder := item_folder c;
         item_alternative_folder := Some v;
         item_file := item_file c |}
  | file =>
      {| log_string := log_string c; streams := streams c;
         blacklisted_streams := blacklisted_streams c;
         item_folder := item_folder c;
         item_alternative_folder := item_alternative_folder c;
         item_file := Some v |}
  end.

Definition core_blacklist (stream : Stream) (c : ItemCore) : ItemCore :=
  {| log_string := log_string c; streams := streams c;
     blacklisted_streams := blacklisted_streams c ++ [stream];
     item_folder := item_folder c;
     item_alternative_folder := item_alternative_folder c;
     item_file := item_file c |}.

Definition map_core (g : ItemCore → ItemCore) (item : MediaItem) : MediaItem :=
  match item with
  | MovieItem c => MovieItem (g c)
  | ShowItem s => ShowItem {| show_core := g (show_core s); seasons := seasons s |}
  | SeasonItem s =>
      SeasonItem {| season_core := g (season_core s);
                    season_number := season_number s; episodes := episodes s |}
  | EpisodeItem e =>
      EpisodeItem {| episode_core := g (episode_core e);
                     episode_number := episode_number e |}
  end.

Definition episode_set (f : field) (v : string) (e : Episode) : Episode :=
  {| episode_core := core_set f v (episode_core e);
     episode_number := episode_number e |}.

Definition season_alter_episode (g : Episode → Episode) (ei : nat) (s : Season) : Season :=
  {| season_core := season_core s; season_number := season_number s;
     episodes := alter g ei (episodes s) |}.

(** Where a write of [set_active_files] lands: on the item itself, on the
    [ei]-th episode of a season item, or on the [ei]-th episode of the
    [si]-th season of a show item. *)
Inductive target :=
| Self
| EpisodeOf (ei : nat)
| EpisodeOfSeason (si ei : nat).

Definition item_write (t : target) (f : field) (v : string) (item : MediaItem) : MediaItem :=
  match t, item with
  | Self, _ => map_core (core_set f v) item
  | EpisodeOf ei, SeasonItem s =>
      SeasonItem (season_alter_episode (episode_set f v) ei s)
  | EpisodeOfSeason si ei, ShowItem s =>
      ShowItem {| show_core := show_core s;
                  seasons := alter (season_alter_episode (episode_set f v) ei) si (seasons s) |}
  | _, _ => item
  end.

(** Modelled from the spec: the blacklist operations of [MediaItem]
    ([program/media/item.py] is not under src/). The design document gives
    the item a blacklist of rejected streams with a membership check and an
    update; the list of candidate streams itself is left as it is. *)
Definition stream_blacklisted (item : MediaItem) (stream : Stream) : bool :=
  bool_decide (stream ∈ blacklisted_streams (core item)).

(** ** Exceptions, events and the transport *)

(** Instances of Python's [Exception]. *)
Inductive exn :=
| KeyError (key : string)
| IndexError
| ConnectTimeout
| RequestException (msg : string).

Inductive outcome (A : Type) :=
| Ret (a : A)
| Raise (e : exn).
Arguments Ret {A} a.
Arguments Raise {A} e.

Inductive level := DEBUG | ERROR | DEBRID.

(** The calls of [utils.request] that the downloader makes, by endpoint and
    by the values formatted into the URL and the body. *)
Inductive request :=
| AddMagnet (hash : string)
| InstantAvailability (hashes : list string)
| TorrentInfo (request_id : string)
| SelectFiles (request_id : option string) (files : list file_id)
| Torrents (limit : Z).

Inductive event :=
| Request (r : request)
| Log (lvl : level) (template : string)
| Sleep (seconds : Z)
| FinderCall (item : MediaItem) (files : list pyfile).

Record response (A : Type) := { is_ok : bool; data : A }.
Arguments is_ok {A} r.
Arguments data {A} r.

(** The transport layer ([get] and [post] of [utils.request]), one oracle per
    endpoint with the type of [response.data] the downloader relies on.
    A call steps the remote world and returns a response or raises. *)
Record Transport (W : Type) := {
  post_addMagnet : string → W → outcome (response string) * W;
  get_instantAvailability : list string → W → outcome (response availability) * W;
  get_info : string → W → outcome (response torrent_info) * W;
  post_selectFiles : option string → list file_id → W → outcome (response unit) * W;
  get_torrents_page : Z → W → outcome (response (list Torrent)) * W
}.
Arguments post_addMagnet {W} t.
Arguments get_instantAvailability {W} t.
Arguments get_info {W} t.
Arguments post_selectFiles {W} t.
Arguments get_torrents_page {W} t.

(** ** Settings and the file finder *)

Record DownloadSettings := {
  movie_filesize_min : Z;
  movie_filesize_max : Z;
  episode_filesize_min : Z;
  episode_filesize_max : Z
}.

(** An upper bound that may be [float("inf")]. *)
Inductive bound := Finite (n : Z) | Infinity.

(** The attributes a [FileFinder] is constructed with. *)
Record FileFinder := {
  filename_attr : string;
  filesize_attr : string;
  min_filesize : Z;
  max_filesize : bound
}.

(** [self.finder] as built in [__init__]. *)
Definition init_finder (download_settings : DownloadSettings) : FileFinder :=
  {| filename_attr := "filename";
     filesize_attr := "filesize";
     min_filesize := (episode_filesize_min download_settings * 1000000)%Z;
     max_filesize :=
       if bool_decide (episode_filesize_max download_settings ≠ (-1)%Z)
       then Finite (episode_filesize_max download_settings * 1000000)%Z
       else Infinity |}.

(** The checks of [validate] on the filesize settings (they precede the
    ping of the account); [isinstance(_, int)] holds by typing. *)
Definition validate_filesizes (download_settings : DownloadSettings) : bool :=
  if bool_decide (movie_filesize_min download_settings < -1)%Z then false
  else if bool_decide (movie_filesize_max download_settings < -1)%Z then false
  else if bool_decide (episode_filesize_min download_settings < -1)%Z then false
  else if bool_decide (episode_filesize_max download_settings < -1)%Z then false
  else true.

(** [lo <= size <= hi] *)
Definition within (lo : Z) (hi : bound) (size : Z) : bool :=
  bool_decide (lo ≤ size)%Z &&
  match hi with
  | Finite n => bool_decide (size ≤ n)%Z
  | Infinity => true
  end.

(** Modelled from the spec: the filesize gate of [FileFinder]
    ([program/downloaders/shared.py] is not under src/): a candidate passes
    when its size lies in [[min, max]] of the finder. *)
Definition passes_filesize_gate (finder : FileFinder) (size : Z) : bool :=
  within (min_filesize finder) (max_filesize finder) size.

(** Modelled from the spec: the bounds the design document asks for, those
    of the item's content class, with [-1] for no upper bound. *)
Definition class_bounds (download_settings : DownloadSettings) (item : MediaItem) : Z * bound :=
  let to_bound (n : Z) := if bool_decide (n ≠ (-1)%Z) then Finite (n * 1000000)%Z else Infinity in
  match item with
  | MovieItem _ =>
      ((movie_filesize_min download_settings * 1000000)%Z,
       to_bound (movie_filesize_max download_settings))
  | _ =>
      ((episode_filesize_min download_settings * 1000000)%Z,
       to_bound (episode_filesize_max download_settings))
  end.

(** Python truthiness of lists, dictionaries and optional strings. *)
Definition list_truthy {A} (l : list A) : bool :=
  match l with [] => false | _ => true end.

Definition dict_truthy {V} (d : gmap string V) : bool :=
  negb (bool_decide (d = ∅)).

Definition id_truthy (torrent_id : option string) : bool :=
  match torrent_id with
  | None => false
  | Some s => negb (bool_decide (s = ""))
  end.

(** ** The downloader *)

(** What a [RealDebridDownloader] is built on: the transport, the finder's
    matching method and the settings. [find_required_files] lives in
    [program/downloaders/shared.py], which is not under src/; it is a method
    of the finder, pure in the item and the candidate list. *)
Class Downloader (W : Type) := {
  http : Transport W;
  (** [pathlib.Path(p).name] *)
  Path_name : string → string;
  find_required_files : FileFinder → MediaItem → list pyfile → list pyfile;
  (** [settings_manager.settings.downloaders] *)
  download_settings : DownloadSettings
}.

Section RealDebridDownloader.

Context {W : Type} {rd : Downloader W}.

(** [self.finder] *)
Definition finder : FileFinder := init_finder download_settings.

Record state := {
  remote : W;
  item : MediaItem;
  active_stream : option string;
  events : list event
}.

Definition M (A : Type) : Type := state → outcome A * state.

#[global] Instance M_ret : MRet M := λ A a s, (Ret a, s).
#[global] Instance M_bind : MBind M := λ A B f m s,
  match m s with
  | (Ret a, s') => f a s'
  | (Raise e, s') => (Raise e, s')
  end.

Definition raise {A} (e : exn) : M A := λ s, (Raise e, s).

(** [try: body except Exception as e: handler e] *)
Definition try_except {A} (body : M A) (handler : exn → M A) : M A := λ s,
  match body s with
  | (Ret a, s') => (Ret a, s')
  | (Raise e, s') => handler e s'
  end.

Definition emit (ev : event) : M unit := λ s,
  (Ret tt, {| remote := remote s; item := item s;
              active_stream := active_stream s;
              events := events s ++ [ev] |}).

Definition logger (lvl : level) (template : string) : M unit := emit (Log lvl template).

(** A call of the transport: the request is recorded, the oracle steps the
    remote world and answers or raises. *)
Definition call {A} (r : request) (oracle : W → outcome (response A) * W) : M (response A) := λ s,
  let '(o, w) := oracle (remote s) in
  (o, {| remote := w; item := item s;
         active_stream := active_stream s;
         events := events s ++ [Request r] |}).

Definition get_item : M MediaItem := λ s, (Ret (item s), s).

Definition update_item (g : MediaItem → MediaItem) : M unit := λ s,
  (Ret tt, {| remote := remote s; item := g (item s);
              active_stream := active_stream s;
              events := events s |}).

Definition set_active_stream (stream : string) : M unit := λ s,
  (Ret tt, {| remote := remote s; item := item s;
              active_stream := Some stream;
              events := events s |}).

(** [self.finder.find_required_files(it, files)] *)
Definition finder_call (it : MediaItem) (files : list pyfile) : M (list pyfile) :=
  emit (FinderCall it files);; mret (find_required_files finder it files).

(** [item.is_stream_blacklisted(stream)] and [item.blacklist_stream(stream)] *)
Definition is_stream_blacklisted (stream : Stream) : M bool :=
  it ← get_item; mret (stream_blacklisted it stream).

Definition blacklist_stream (stream : Stream) : M unit :=
  update_item (map_core (core_blacklist stream)).

(** *** API methods

    Each method wraps its transport call in [try ... except Exception]; a
    branch of the [try] body that does not return falls through to the
    default returned after the handler. *)

Definition add_magnet (hash : string) : M (option string) :=
  try_except
    (response ← call (AddMagnet hash) (post_addMagnet http hash);
     if is_ok response then mret (Some (data response))
     else logger ERROR "Failed to add magnet: {response.data}";; mret None)
    (λ e, logger ERROR "Failed to add magnet: {e}";; mret None).

Definition get_instant_availability (hashes : list string) : M availability :=
  if negb (list_truthy hashes) then
    logger ERROR "No hashes found";; mret []
  else
    try_except
      (response ← call (InstantAvailability hashes) (get_instantAvailability http hashes);
       if is_ok response then mret (data response) else mret [])
      (λ e, logger ERROR "Error getting instant availability for {hashes or 'UNKNOWN'}: {e}";;
            mret []).

Definition get_torrent_info (request_id : option string) : M torrent_info :=
  match request_id with
  | Some rid =>
      if bool_decide (rid = "") then
        logger ERROR "No request ID found";; mret empty_info
      else
        try_except
          (response ← call (TorrentInfo rid) (get_info http rid);
           if is_ok response then mret (data response) else mret empty_info)
          (λ e, logger ERROR "Error getting torrent info for {request_id or 'UNKNOWN'}: {e}";;
                mret empty_info)
  | None => logger ERROR "No request ID found";; mret empty_info
  end.

Definition pyfile_id (f : pyfile) : file_id :=
  match f with
  | Candidate c => id c
  | RawInfo r => IdNum (f_id r)
  end.

Definition select_files (request_id : option string) (container : list pyfile) : M bool :=
  try_except
    (response ← call (SelectFiles request_id (pyfile_id <$> container))
                     (post_selectFiles http request_id (pyfile_id <$> container));
     mret (is_ok response))
    (λ e, logger ERROR "Error selecting files: {e}";; mret false).

(** [{torrent.hash: torrent for torrent in response.data}]: entries are
    written in listing order, a later one overwrites an earlier one. *)
Definition torrents_by_hash (listing : list Torrent) : gmap string Torrent :=
  foldl (λ d torrent, <[torrent_hash torrent := torrent]> d) ∅ listing.

Definition get_torrents (limit : Z) : M (gmap string Torrent) :=
  try_except
    (response ← call (Torrents limit) (get_torrents_page http limit);
     if is_ok response && list_truthy (data response)
     then mret (torrents_by_hash (data response))
     else mret ∅)
    (λ e, logger ERROR "Error getting torrents from Real-Debrid: {e}";; mret ∅).

(** *** Cache resolution *)

(** [[{**file, 'id': file_id} for file_id, file in container.items()]] *)
Definition tag_container (c : container) : list pyfile :=
  (λ entry, Candidate {| filename := a_filename entry.2;
                         filesize := a_filesize entry.2;
                         id := IdKey entry.1 |}) <$> c.

(** How a loop of [is_cached] hands control back: it ran to its end or was
    left by [break] ([Next]), or the method returned ([Returned]). *)
Inductive flow :=
| Next (return_dict : gmap string (list pyfile))
| Returned (return_dict : gmap string (list pyfile)).

Definition flow_dict (r : flow) : gmap string (list pyfile) :=
  match r with Next d | Returned d => d end.

(** [for container in container_list: ...] *)
Fixpoint containers_loop (break_on_first : bool) (hash : string)
    (container_list : list container) (return_dict : gmap string (list pyfile)) : M flow :=
  match container_list with
  | [] => mret (Next return_dict)
  | c :: rest =>
      it ← get_item;
      files ← finder_call it (tag_container c);
      if list_truthy files then
        if break_on_first then mret (Returned (<[hash := files]> return_dict))
        else mret (Next (<[hash := files]> return_dict))
      else containers_loop break_on_first hash rest return_dict
  end.

(** [for container_list in provider.values(): ...] *)
Fixpoint hosters_loop (break_on_first : bool) (hash : string)
    (values : list (list container)) (return_dict : gmap string (list pyfile)) : M flow :=
  match values with
  | [] => mret (Next return_dict)
  | container_list :: rest =>
      r ← containers_loop break_on_first hash container_list return_dict;
      match r with
      | Returned d => mret (Returned d)
      | Next d => hosters_loop break_on_first hash rest d
      end
  end.

(** [for hash, provider in cached_hashes.items(): ...] *)
Fixpoint hashes_loop (break_on_first : bool) (cached_hashes : availability)
    (return_dict : gmap string (list pyfile)) : M flow :=
  match cached_hashes with
  | [] => mret (Next return_dict)
  | (hash, NotDict _) :: rest => hashes_loop break_on_first rest return_dict
  | (hash, Hosters hosters) :: rest =>
      r ← hosters_loop break_on_first hash (snd <$> hosters) return_dict;
      match r with
      | Returned d => mret (Returned d)
      | Next d => hashes_loop break_on_first rest d
      end
  end.

(** The body of [is_cached] after the availability call. *)
Definition resolve_cached (cached_hashes : availability) (break_on_first : bool)
    : M (gmap string (list pyfile)) :=
  if list_truthy cached_hashes then
    r ← hashes_loop break_on_first cached_hashes ∅; mret (flow_dict r)
  else mret ∅.

Definition is_cached (streams : list string) (break_on_first : bool)
    : M (gmap string (list pyfile)) :=
  cached_hashes ← get_instant_availability streams;
  resolve_cached cached_hashes break_on_first.

Definition get_cached_hashes (streams : list string) : M (gmap string (list pyfile)) :=
  is_cached streams false.

(** *** Reuse check *)

(** [d[key]] on a dictionary whose key may be absent. *)
Definition getitem {A} (key : string) (entry : option A) : M A :=
  match entry with
  | Some v => mret v
  | None => raise (KeyError key)
  end.

(** [l[0]] *)
Definition first {A} (l : list A) : M A :=
  match l with
  | x :: _ => mret x
  | [] => raise IndexError
  end.

(** [{"filename": Path(file["path"]).name, "filesize": file["bytes"], 'id': file["id"]}] *)
Definition candidate_of_info (f : info_file) : pyfile :=
  Candidate {| filename := Path_name (f_path f);
               filesize := f_bytes f;
               id := IdNum (f_id f) |}.

Definition torrent_is_downloaded (hash_key : string) : M (option string) :=
  logger DEBUG "Checking if torrent is already downloaded for item: {item.log_string}";;
  torrents ← get_torrents 1000;
  match torrents !! hash_key with
  | None =>
      logger DEBUG "No matching torrent found for hash: {hash_key}";; mret None
  | Some torrent =>
      info ← get_torrent_info (Some (torrent_id torrent));
      fs ← getitem "files" (i_files info);
      if negb (list_truthy fs) then
        logger DEBUG "Failed to get torrent info for ID: {torrent.id}";; mret None
      else
        it ← get_item;
        found ← finder_call it (candidate_of_info <$> filter (λ f, f_selected f = true) fs);
        if negb (list_truthy found) then mret None
        else mret (Some (torrent_id torrent))
  end.

(** *** Binding *)

(** [file["filename"]] *)
Definition pyfile_filename (f : pyfile) : M string :=
  match f with
  | Candidate c => mret (filename c)
  | RawInfo _ => raise (KeyError "filename")
  end.

(** The three [set] calls that bind one matched file to a target. *)
Definition bind_file (t : target) (f : pyfile) (info : torrent_info) : M unit :=
  name ← pyfile_filename f;
  fn ← getitem "filename" (i_filename info);
  update_item (item_write t folder fn);;
  ofn ← getitem "original_filename" (i_original_filename info);
  update_item (item_write t alternative_folder ofn);;
  update_item (item_write t file (Path_name name)).

(** [for episode in <season>.episodes: ...], the episode at index [ei] of
    the list being bound through [t ei]. *)
Fixpoint episodes_loop (t : nat → target) (ei : nat) (eps : list Episode)
    (files : list pyfile) (info : torrent_info) : M unit :=
  match eps with
  | [] => mret tt
  | episode :: rest =>
      found ← finder_call (EpisodeItem episode) files;
      (if list_truthy found then
         f ← first found; bind_file (t ei) f info
       else mret tt);;
      episodes_loop t (S ei) rest files info
  end.

(** [for season in item.seasons: ...] *)
Fixpoint seasons_loop (si : nat) (ss : list Season)
    (files : list pyfile) (info : torrent_info) : M unit :=
  match ss with
  | [] => mret tt
  | season :: rest =>
      episodes_loop (EpisodeOfSeason si) 0 (episodes season) files info;;
      seasons_loop (S si) rest files info
  end.

Definition item_seasons (it : MediaItem) : list Season :=
  match it with ShowItem s => seasons s | _ => [] end.

Definition item_episodes (it : MediaItem) : list Episode :=
  match it with SeasonItem s => episodes s | _ => [] end.

Definition set_active_files (torrent_id : option string) (container : list pyfile) : M unit :=
  info ← get_torrent_info torrent_id;
  container ←
    (if negb (list_truthy container) then
       fs ← getitem "files" (i_files info);
       it ← get_item;
       finder_call it (RawInfo <$> fs)
     else mret container);
  if list_truthy container then
    it ← get_item;
    (if bool_decide (type it = "movie") then
       found ← finder_call it container;
       f ← first found;
       bind_file Self f info
     else mret tt);;
    it ← get_item;
    (if bool_decide (type it = "show") then
       files ← finder_call it container;
       seasons_loop 0 (item_seasons it) files info
     else mret tt);;
    it ← get_item;
    (if bool_decide (type it = "season") then
       files ← finder_call it container;
       episodes_loop EpisodeOf 0 (item_episodes it) files info
     else mret tt);;
    it ← get_item;
    (if bool_decide (type it = "episode") then
       found ← finder_call it container;
       f ← first found;
       bind_file Self f info
     else mret tt)
  else mret tt.

(** *** Download sequence *)

Definition download (stream : string) (container : list pyfile) : M unit :=
  torrent_id ← torrent_is_downloaded stream;
  (if id_truthy torrent_id then
     set_active_files torrent_id container
   else
     torrent_id ← add_magnet stream;
     emit (Sleep 1);;
     select_files torrent_id container;;
     set_active_files torrent_id container);;
  set_active_stream stream;;
  logger DEBUG "Downloaded {item.log_string}".

Definition download_cached (stream : string) : M unit :=
  torrent_id ← torrent_is_downloaded stream;
  '(torrent_id, added_magnet) ←
    (if negb (id_truthy torrent_id) then
       torrent_id ← add_magnet stream;
       emit (Sleep 1);;
       mret (torrent_id, true)
     else mret (torrent_id, false));
  info ← get_torrent_info torrent_id;
  fs ← getitem "files" (i_files info);
  it ← get_item;
  container ← finder_call it (candidate_of_info <$> fs);
  (if (added_magnet : bool) then select_files torrent_id container;; mret tt else mret tt);;
  set_active_files torrent_id container;;
  set_active_stream stream;;
  logger DEBUG "Downloaded {item.log_string}".

(** *** Top level *)

(** [for stream in item.streams: ...] with [return_value] as the result. *)
Fixpoint run_loop (ss : list Stream) : M bool :=
  match ss with
  | [] => mret false
  | stream :: rest =>
      blacklisted ← is_stream_blacklisted stream;
      if (blacklisted : bool) then run_loop rest
      else
        file_dict ← is_cached [infohash stream] true;
        if dict_truthy file_dict then
          logger DEBRID "Item has cached containers, proceeding with: {item.log_string}";;
          c ← getitem (infohash stream) (file_dict !! infohash stream);
          download (infohash stream) c;;
          mret true
        else
          logger DEBUG "Blacklisting uncached hash ({stream.infohash}) for item: {item.log_string}";;
          blacklist_stream stream;;
          run_loop rest
  end.

Definition run : M bool :=
  it ← get_item; run_loop (streams (core it)).

(** *** Reading the event log *)

Definition add_events (s : state) (evs : list event) : state :=
  {| remote := remote s; item := item s;
     active_stream := active_stream s;
     events := events s ++ evs |}.

Definition requests_of (evs : list event) : list request :=
  omap (λ ev, match ev with Request r => Some r | _ => None end) evs.

Definition finder_calls_of (evs : list event) : list (MediaItem * list pyfile) :=
  omap (λ ev, match ev with FinderCall it files => Some (it, files) | _ => None end) evs.

(** A request that changes the account: adding a magnet or selecting files. *)
Definition is_mutation (ev : event) : bool :=
  match ev with
  | Request (AddMagnet _) | Request (SelectFiles _ _) => true
  | _ => false
  end.

(** The containers of an availability dictionary in the order [is_cached]
    visits them, each with the hash it is reported under. *)
Definition containers_of (cached_hashes : availability) : list (string * container) :=
  '(hash, p) ← cached_hashes;
  match p with
  | Hosters hosters => container_list ← snd <$> hosters; pair hash <$> container_list
  | NotDict _ => []
  end.

Definition matched (it : MediaItem) (c : container) : list pyfile :=
  find_required_files finder it (tag_container c).

(** The first container that the finder accepts, with its hash and match. *)
Fixpoint first_match (it : MediaItem) (cs : list (string * container))
    : option (string * list pyfile) :=
  match cs with
  | [] => None
  | (hash, c) :: rest =>
      if list_truthy (matched it c) then Some (hash, matched it c)
      else first_match it rest
  end.

(** The containers up to and including the first accepted one. *)
Fixpoint through_first_match (it : MediaItem) (cs : list (string * container))
    : list (string * container) :=
  match cs with
  | [] => []
  | (hash, c) :: rest =>
      if list_truthy (matched it c) then [(hash, c)]
      else (hash, c) :: through_first_match it rest
  end.

(** The finder calls for a list of containers. *)
Definition calls_for (it : MediaItem) (cs : list (string * container)) : list event :=
  (λ hc, FinderCall it (tag_container hc.2)) <$> cs.

(** How the loops of [is_cached] end when they stop at the first accepted
    container of [cs]. *)
Definition stop_at_first (it : MediaItem) (cs : list (string * container))
    (d : gmap string (list pyfile)) : flow :=
  match first_match it cs with
  | Some (h, files) => Returned (<[h := files]> d)
  | None => Next d
  end.

(** A computation that, from any state, only appends events to the log
    and appends no request that changes the account. *)
Definition quiet {A} (m : M A) : Prop :=
  ∀ s, ∃ new, events (m s).2 = events s ++ new ∧
              Forall (λ ev, is_mutation ev = false) new.

(** Every entry of [d] is the non-empty match of a container reported
    under its hash in [cached_hashes]. *)
Definition justified (it : MediaItem) (cached_hashes : availability)
    (d : gmap string (list pyfile)) : Prop :=
  ∀ h files, d !! h = Some files →
    files ≠ [] ∧
    ∃ hosters container_list c,
      (h, Hosters hosters) ∈ cached_hashes ∧ container_list ∈ hosters.*2 ∧
      c ∈ container_list ∧ files = matched it c.

(** No container reported for a payload is accepted by the finder. *)
Definition no_container_matches (it : MediaItem) (p : provider) : Prop :=
  match p with
  | Hosters hosters =>
      ∀ container_list c, container_list ∈ hosters.*2 → c ∈ container_list →
        matched it c = []
  | NotDict _ => True
  end.

End RealDebridDownloader.

Arguments state W : clear implicits.
Arguments M W A : clear implicits.

(** * Further notions, for the methods the claims leave aside *)

Section Observations.

Context {W : Type} {rd : Downloader W}.

(** The requests among [evs] that change the account. *)
Definition mutations_of (evs : list event) : list request :=
  requests_of (filter (λ ev, is_mutation ev = true) evs).

(** A computation whose final state is related to its initial state by
    [R], whether it returns or raises. *)
Definition keeps {A} (R : state W → state W → Prop) (m : M W A) : Prop :=
  ∀ s, R s (m s).2.

(** The item and [self.active_stream] are as before. *)
Definition same_item (s s' : state W) : Prop :=
  item s' = item s ∧ active_stream s' = active_stream s.

(** The candidate streams and the blacklist of the item are as before. *)
Definition same_stream_lists (s s' : state W) : Prop :=
  streams (core (item s')) = streams (core (item s)) ∧
  blacklisted_streams (core (item s')) = blacklisted_streams (core (item s)).


(** What [is_cached] without [break_on_first] records for one list of
    containers: the match of its first accepted container, if any. *)
Definition record_first (it : MediaItem) (h : string) (container_list : list container)
    (d : gmap string (list pyfile)) : gmap string (list pyfile) :=
  match first_match it (pair h <$> container_list) with
  | Some (h', files) => <[h' := files]> d
  | None => d
  end.

Definition record_hosters (it : MediaItem) (h : string) (values : list (list container))
    (d : gmap string (list pyfile)) : gmap string (list pyfile) :=
  foldl (λ d container_list, record_first it h container_list d) d values.

Definition record_all (it : MediaItem) (cached_hashes : availability)
    (d : gmap string (list pyfile)) : gmap string (list pyfile) :=
  foldl (λ d entry,
           match entry.2 with
           | Hosters hosters => record_hosters it entry.1 hosters.*2 d
           | NotDict _ => d
           end) d cached_hashes.

(** The containers the finder is called on without [break_on_first]: of
    every list of containers, those up to its first accepted one. *)
Definition examined (it : MediaItem) (cached_hashes : availability)
    : list (string * container) :=
  '(h, p) ← cached_hashes;
  match p with
  | Hosters hosters =>
      container_list ← hosters.*2; through_first_match it (pair h <$> container_list)
  | NotDict _ => []
  end.

(** The availability endpoint never reports a container that the finder
    accepts, for any item: it raises, answers with an error, or reports
    rejected containers only. *)
Definition never_cached : Prop :=
  ∀ hashes w,
    match (get_instantAvailability http hashes w).1 with
    | Ret r => is_ok r = true → ∀ it h p, (h, p) ∈ data r → no_container_matches it p
    | Raise _ => True
    end.

(** The streams that [run] puts on the blacklist [bl] when none of the
    streams [ss] is cached: each one that is not on it when its turn
    comes. *)
Fixpoint newly_blacklisted (bl ss : list Stream) : list Stream :=
  match ss with
  | [] => []
  | stream :: rest =>
      if bool_decide (stream ∈ bl) then newly_blacklisted bl rest
      else stream :: newly_blacklisted (bl ++ [stream]) rest
  end.

(** The three fields that a binding writes. *)
Definition bound_core (fn ofn name : string) (c : ItemCore) : ItemCore :=
  core_set file name (core_set alternative_folder ofn (core_set folder fn c)).

(** An episode after the binding loop has passed it: bound to the first
    file the finder returns for it among [files], or left as it was when the
    finder returns nothing. *)
Definition bound_episode (files : list pyfile) (fn ofn : string) (e : Episode) : Episode :=
  match find_required_files finder (EpisodeItem e) files with
  | Candidate cand :: _ =>
      {| episode_core := bound_core fn ofn (Path_name (filename cand)) (episode_core e);
         episode_number := episode_number e |}
  | _ => e
  end.

(** The first file the finder returns for the episode, if any, has a
    [filename] key. *)
Definition bindable (files : list pyfile) (e : Episode) : Prop :=
  match find_required_files finder (EpisodeItem e) files with
  | RawInfo _ :: _ => False
  | _ => True
  end.

Definition bound_season (files : list pyfile) (fn ofn : string) (se : Season) : Season :=
  {| season_core := season_core se; season_number := season_number se;
     episodes := bound_episode files fn ofn <$> episodes se |}.



End Observations.

(** * [RealDebridDownloader.validate]

    [validate] runs once, in [__init__]: it checks the settings and then
    pings the [/user] endpoint. It is embedded as a function of the settings
    and of what the ping answers, and returns its result with the notes it
    leaves: the ping, if it was made, and the logger calls. *)

Module Validation.

(** [settings_manager.settings.downloaders.real_debrid]; an unset key or
    URL is the empty string. *)
Record RealDebridSettings := {
  enabled : bool;
  api_key : string;
  proxy_enabled : bool;
  proxy_url : string
}.

(** The JSON object of the [/user] endpoint, as far as [validate] reads it;
    every key may be missing. *)
Record user_info := {
  expiration : option string;
  user_type : option string;
  premium : option Z
}.

(** A [datetime.timedelta]; Python keeps [0 <= seconds < 86400]. *)
Record timedelta := { days : Z; seconds : Z }.

Inductive expiration_note :=
| ExpiresInDays (days_left : Z)
| ExpiresInHoursAndMinutes (hours_left minutes_left : Z)
| ExpiresSoon.

Inductive note :=
| Ping
| Warning (template : string)
| Error (template : string)
| Exception (template : string)
| Debrid (message : expiration_note).

(** The message chosen from [time_left]; [divmod] and [//] round down, as
    [Z.div_eucl] and [/] do for a positive divisor. *)
Definition expiration_message (time_left : timedelta) : expiration_note :=
  let days_left := days time_left in
  let '(hours_left, minutes_left) := Z.div_eucl (seconds time_left / 3600) 60 in
  if bool_decide (days_left > 0)%Z then ExpiresInDays days_left
  else if bool_decide (hours_left > 0)%Z
       then ExpiresInHoursAndMinutes hours_left minutes_left
  else ExpiresSoon.

(** [expiration.replace("Z", "+00:00")] *)
Fixpoint replace_Z (s : string) : string :=
  match s with
  | EmptyString => EmptyString
  | String c rest =>
      if Ascii.eqb c "Z"%char then "+00:00" +:+ replace_Z rest
      else String c (replace_Z rest)
  end.

(** The first filesize check of [validate] that fails, with its message. *)
Definition filesize_error (download_settings : DownloadSettings) : option string :=
  if bool_decide (movie_filesize_min download_settings < -1)%Z
  then Some "Real-Debrid movie filesize min is not set or invalid."
  else if bool_decide (movie_filesize_max download_settings < -1)%Z
  then Some "Real-Debrid movie filesize max is not set or invalid."
  else if bool_decide (episode_filesize_min download_settings < -1)%Z
  then Some "Real-Debrid episode filesize min is not set or invalid."
  else if bool_decide (episode_filesize_max download_settings < -1)%Z
  then Some "Real-Debrid episode filesize max is not set or invalid."
  else None.

(** The part of [validate] inside [try], once the ping has answered.
    [time_left iso] stands for
    [datetime.fromisoformat(iso) - datetime.utcnow()], [None] when
    [fromisoformat] raises; [response.response.json()] is the [data] of the
    response and may raise as well. An exception other than
    [ConnectTimeout] is logged by [logger.exception]. *)
Definition check_account (time_left : string → option timedelta)
    (ping : outcome (response (outcome user_info))) : bool * list note :=
  match ping with
  | Raise ConnectTimeout => (false, [Ping; Error "Connection to Real-Debrid timed out."])
  | Raise _ => (false, [Ping; Exception "Failed to validate Real-Debrid settings: {e}"])
  | Ret response =>
      if is_ok response then
        match data response with
        | Raise _ => (false, [Ping; Exception "Failed to validate Real-Debrid settings: {e}"])
        | Ret info =>
            match time_left (replace_Z (default "" (expiration info))) with
            | None => (false, [Ping; Exception "Failed to validate Real-Debrid settings: {e}"])
            | Some remaining =>
                if bool_decide (default "" (user_type info) ≠ "premium")
                then (false, [Ping; Error "You are not a premium member."])
                else (bool_decide (default 0 (premium info) > 0)%Z,
                      [Ping; Debrid (expiration_message remaining)])
            end
        end
      else (false, [Ping])
  end.

Definition validate (settings : RealDebridSettings) (download_settings : DownloadSettings)
    (time_left : string → option timedelta)
    (ping : outcome (response (outcome user_info))) : bool * list note :=
  if negb (enabled settings) then (false, [Warning "Real-Debrid is set to disabled"])
  else if bool_decide (api_key settings = "")
  then (false, [Warning "Real-Debrid API key is not set"])
  else match filesize_error download_settings with
       | Some message => (false, [Error message])
       | None =>
           if proxy_enabled settings && bool_decide (proxy_url settings = "")
           then (false, [Error "Proxy is enabled but no proxy URL is provided."])
           else check_account time_left ping
       end.

(** The settings pass every check that [validate] makes before the ping. *)
Definition settings_accepted (settings : RealDebridSettings)
    (download_settings : DownloadSettings) : Prop :=
  enabled settings = true ∧ api_key settings ≠ "" ∧
  (-1 ≤ movie_filesize_min download_settings)%Z ∧
  (-1 ≤ movie_filesize_max download_settings)%Z ∧
  (-1 ≤ episode_filesize_min download_settings)%Z ∧
  (-1 ≤ episode_filesize_max download_settings)%Z ∧
  (proxy_enabled settings = true → proxy_url settings ≠ "").

End Validation.

(** * The scrapers

    Shallow embedding of [src/program/services/scrapers/torbox.py] (class
    [TorBoxScraper]) and [src/program/services/scrapers/mediafusion.py]
    (class [Mediafusion]). A scraper makes one request per call and works
    on the answer, so a method is a function of the answer of the request
    handler (a response or an exception) to its result and to the events
    it leaves, in order: the requests it hands to the handler and the
    logger calls, with their messages formatted as the f-strings are. *)

(** ** Text *)

Module Text.

(** [s.split(sep)] for a non-empty [sep]: the string is scanned from the
    left; where [sep] starts, the current piece ends and the scan goes on
    behind that occurrence. [skip] counts the characters of an occurrence
    that are still to be passed. A [string] holds the UTF-8 bytes of the
    Python string; an occurrence of well-formed UTF-8 in well-formed UTF-8
    starts at a character, so the pieces are those of Python. *)
Fixpoint split_skip (sep : string) (skip : nat) (s : string) : list string :=
  match s with
  | EmptyString => [""]
  | String c rest =>
      match skip with
      | S skip => split_skip sep skip rest
      | O =>
          if String.prefix sep s
          then "" :: split_skip sep (String.length sep - 1) rest
          else match split_skip sep 0 rest with
               | piece :: pieces => String c piece :: pieces
               | [] => [String c ""]
               end
      end
  end.

Definition split (sep s : string) : list string := split_skip sep 0 s.

(** [s.replace(old, new)] for a non-empty [old], scanned in the same way. *)
Fixpoint replace_skip (old new : string) (skip : nat) (s : string) : string :=
  match s with
  | EmptyString => ""
  | String c rest =>
      match skip with
      | S skip => replace_skip old new skip rest
      | O =>
          if String.prefix old s
          then new +:+ replace_skip old new (String.length old - 1) rest
          else String c (replace_skip old new 0 rest)
      end
  end.

Definition replace (old new s : string) : string := replace_skip old new 0 s.

(** [sep.join(parts)] *)
Fixpoint join (sep : string) (parts : list string) : string :=
  match parts with
  | [] => ""
  | [part] => part
  | part :: rest => part +:+ sep +:+ join sep rest
  end.

(** The byte [c] occurs in [s]. *)
Fixpoint occurs (c : ascii) (s : string) : bool :=
  match s with
  | EmptyString => false
  | String c' rest => Ascii.eqb c c' || occurs c rest
  end.

End Text.

(** ** What the two scrapers share *)

Module Scraping.

(** The [response] attribute of a [RequestException], as far as [run]
    reads it: its truth value ([bool(e.response)], which [requests] defines
    as the response's [ok]) and its status code. *)
Record http_response := { truth : bool; status_code : Z }.

(** The exceptions by the [except] clause that catches them. [ReadTimeout]
    is a [RequestException] as well and carries a [response] like it;
    [OtherException] is any other instance of [Exception], such as the
    [AttributeError] of a missing attribute. *)
Inductive error :=
| RateLimitExceeded
| ConnectTimeout
| ReadTimeout (response : option http_response)
| RequestException (response : option http_response)
| OtherException (name : string).

Inductive result (A : Type) :=
| Returns (a : A)
| Raises (e : error).
Arguments Returns {A} a.
Arguments Raises {A} e.

Inductive level := WARNING | ERROR | EXCEPTION | SCRAPER | NOT_FOUND.

Inductive method := GET | POST.

(** The JSON body of Mediafusion's [encrypt-user-data] request, as far as
    it depends on the settings: [sp.sv], [sp.tk] and [sc]. *)
Record payload := { sv : option string; tk : option string; sc : list string }.

(** [LogException] is a logger call whose message ends in [{e}]. *)
Inductive event :=
| Execute (m : method) (url : string) (json : option payload)
| Log (l : level) (message : string)
| LogException (l : level) (message : string) (e : error).

(** The media item as the scrapers read it; [parent_number] is
    [item.parent.number]. *)
Record item := {
  type : string;
  imdb_id : string;
  number : Z;
  parent_number : Z;
  log_string : string
}.

Definition str_truthy (s : option string) : bool :=
  match s with
  | None => false
  | Some s => negb (bool_decide (s = ""))
  end.

Definition is_request (ev : event) : bool :=
  match ev with Execute _ _ _ => true | _ => false end.

Definition requests_of (evs : list event) : list event :=
  filter (λ ev, is_request ev = true) evs.

Definition logs_of (evs : list event) : list event :=
  filter (λ ev, is_request ev = false) evs.

End Scraping.

(** [settings_manager.settings.downloaders.<name>], as far as the scrapers
    read it. *)
Module Downloaders.

Record settings := { enabled : bool; api_key : option string }.

End Downloaders.

(** ** TorBox *)

Module TorBox.

Import Text Scraping.

(** [settings_manager.settings.scraping.torbox_scraper] *)
Record TorBoxScraperSettings := { enabled : bool; timeout : Z }.

(** One entry of [response.data.data.torrents]; [None] is falsy as the
    empty string is. *)
Record torrent_data := { raw_title : option string; hash : option string }.

Definition base_url : string := "http://search-api.torbox.app".

Definition validate_url : string :=
  base_url +:+ "/torrents/imdb:tt0944947?metadata=false&season=1&episode=1".

Definition validate (settings : TorBoxScraperSettings)
    (answer : result (response unit)) : bool * list event :=
  if negb (enabled settings) then (false, [])
  else if bool_decide (timeout settings ≤ 0)%Z
  then (false, [Log ERROR "TorBox timeout is not set or invalid."])
  else match answer with
       | Returns response => (is_ok response, [Execute GET validate_url None])
       | Raises e =>
           (false, [Execute GET validate_url None;
                    LogException EXCEPTION "Error validating TorBox Scraper: " e])
       end.

Definition _build_query_params (it : item) : string :=
  let params := ["imdb:" +:+ imdb_id it] in
  let params :=
    if bool_decide (type it = "show") then params ++ ["season=1"]
    else if bool_decide (type it = "season")
    then params ++ ["season=" +:+ pretty (number it)]
    else if bool_decide (type it = "episode")
    then params ++ ["season=" +:+ pretty (parent_number it)
                    +:+ "&episode=" +:+ pretty (number it)]
    else params in
  join "&" params.

Definition scrape_url (it : item) : string :=
  base_url +:+ "/torrents/" +:+ _build_query_params it +:+ "?metadata=false".

(** The loop of [scrape] over the listed torrents. *)
Fixpoint collect (listed : list torrent_data) (torrents : gmap string string)
    : gmap string string :=
  match listed with
  | [] => torrents
  | torrent_data :: rest =>
      if negb (str_truthy (hash torrent_data)) || negb (str_truthy (raw_title torrent_data))
      then collect rest torrents
      else collect rest (<[default "" (hash torrent_data)
                           := default "" (raw_title torrent_data)]> torrents)
  end.

Definition found (it : item) (torrents : gmap string string) : event :=
  if dict_truthy torrents
  then Log SCRAPER ("Found " +:+ pretty (size torrents) +:+ " streams for " +:+ log_string it)
  else Log NOT_FOUND ("No streams found for " +:+ log_string it).

Definition scrape (it : item) (answer : result (response (list torrent_data)))
    : result (gmap string string) * list event :=
  let request := Execute GET (scrape_url it) None in
  match answer with
  | Raises e => (Raises e, [request])
  | Returns response =>
      if negb (is_ok response) || negb (list_truthy (data response))
      then (Returns ∅, [request])
      else let torrents := collect (data response) ∅ in
           (Returns torrents, [request; found it torrents])
  end.

(** [e.response and e.response.status_code == code] *)
Definition has_status (response : option http_response) (code : Z) : bool :=
  match response with
  | None => false
  | Some r => truth r && bool_decide (status_code r = code)
  end.

(** What the [except] clauses of [run] log for [e]. *)
Definition handled (it : item) (e : error) : list event :=
  match e with
  | RateLimitExceeded =>
      [Log WARNING ("TorBox rate limit exceeded for item: " +:+ log_string it)]
  | ConnectTimeout =>
      [Log NOT_FOUND ("TorBox is caching request for " +:+ log_string it
                      +:+ ", will retry later")]
  | ReadTimeout response | RequestException response =>
      if has_status response 418
      then [Log NOT_FOUND ("TorBox has no metadata for item: " +:+ log_string it
                           +:+ ", unable to scrape")]
      else if has_status response 500
      then [Log NOT_FOUND ("TorBox is caching request for " +:+ log_string it
                           +:+ ", will retry later")]
      else []
  | OtherException _ => [LogException ERROR "TorBox exception thrown: " e]
  end.

Definition run (it : item) (answer : result (response (list torrent_data)))
    : gmap string string * list event :=
  match scrape it answer with
  | (Returns torrents, evs) => (torrents, evs)
  | (Raises e, evs) => (∅, evs ++ handled it e)
  end.

(** The entries of the listing that [scrape] takes up. *)
Definition usable (torrent_data : torrent_data) : bool :=
  str_truthy (hash torrent_data) && str_truthy (raw_title torrent_data).

End TorBox.

(** ** Mediafusion *)

Module Mediafusion.

Import Text Scraping.

(** [settings_manager.settings.scraping.mediafusion]; an unset URL is the
    empty string. *)
Record MediafusionSettings := {
  enabled : bool;
  url : string;
  timeout : Z;
  ratelimit : bool;
  catalogs : list string
}.

(** [settings_manager.settings], as far as [validate] reads it. *)
Record AppModel := {
  mediafusion : MediafusionSettings;
  real_debrid : Downloaders.settings;
  torbox : Downloaders.settings
}.

(** The attributes of the scraper that [validate] sets. *)
Record Mediafusion := {
  api_key : option string;
  downloader : option string;
  encrypted_string : option string
}.

(** The scraper as [__init__] leaves it before it calls [validate]. *)
Definition init : Mediafusion :=
  {| api_key := None; downloader := None; encrypted_string := None |}.

Definition set_downloader (name : string) (key : option string) (self : Mediafusion)
    : Mediafusion :=
  {| api_key := key; downloader := Some name;
     encrypted_string := encrypted_string self |}.

Definition set_encrypted_string (s : string) (self : Mediafusion) : Mediafusion :=
  {| api_key := api_key self; downloader := downloader self;
     encrypted_string := Some s |}.

(** The two requests of [validate]. [encrypted] is the answer to the first
    one with [json.loads(response.data)] as its data: the value under
    ["encrypted_str"], if the body has that key. A body that is not JSON
    makes that line raise as a failed request does. *)
Definition connect (app_settings : AppModel) (self : Mediafusion)
    (encrypted : result (response (option string)))
    (manifest : result (response unit)) : bool * Mediafusion * list event :=
  let settings := mediafusion app_settings in
  let post := Execute POST (url settings +:+ "/encrypt-user-data")
                (Some {| sv := downloader self; tk := api_key self;
                         sc := catalogs settings |}) in
  let get := Execute GET (url settings +:+ "/manifest.json") None in
  match encrypted with
  | Raises e => (false, self, [post; LogException ERROR "Failed to encrypt user data: " e])
  | Returns response =>
      match data response with
      | None =>
          (false, self,
           [post; LogException ERROR "Failed to encrypt user data: "
                    (OtherException "KeyError")])
      | Some s =>
          let self := set_encrypted_string s self in
          match manifest with
          | Returns response => (is_ok response, self, [post; get])
          | Raises e =>
              (false, self,
               [post; get; LogException ERROR "Mediafusion failed to initialize: " e])
          end
      end
  end.

Definition validate (app_settings : AppModel) (self : Mediafusion)
    (encrypted : result (response (option string)))
    (manifest : result (response unit)) : bool * Mediafusion * list event :=
  let settings := mediafusion app_settings in
  if negb (enabled settings) then (false, self, [])
  else if bool_decide (url settings = "")
  then (false, self, [Log ERROR "Mediafusion URL is not configured and will not be used."])
  else if bool_decide (timeout settings ≤ 0)%Z
  then (false, self, [Log ERROR "Mediafusion timeout is not set or invalid."])
  else if negb (list_truthy (catalogs settings))
  then (false, self, [Log ERROR "Configure at least one Mediafusion catalog."])
  else if Downloaders.enabled (real_debrid app_settings)
  then connect app_settings
         (set_downloader "realdebrid" (Downloaders.api_key (real_debrid app_settings)) self)
         encrypted manifest
  else if Downloaders.enabled (torbox app_settings)
  then connect app_settings
         (set_downloader "torbox" (Downloaders.api_key (torbox app_settings)) self)
         encrypted manifest
  else (false, self, [Log ERROR "No downloader enabled, please enable at least one."]).

(** One entry of [response.data.streams]; an attribute may be missing. *)
Record stream := { description : option string; stream_url : option string }.

(** ["\n💾"], ["📂 "] and ["?info_hash="] *)
Definition size_mark : string := String "010" "💾".
Definition folder_mark : string := "📂 ".
Definition hash_mark : string := "?info_hash=".

(** How the body of the loop of [scrape] ends for one stream. *)
Inductive step :=
| Invalid (message : string)
| Skipped
| Entry (info_hash raw_title : string).

(** The body of the loop: [len(description_split) < 2] and
    [len(url_split) < 2] are the cases of a list without a second
    element. *)
Definition stream_step (stream : stream) : result step :=
  match description stream with
  | None => Raises (OtherException "AttributeError")
  | Some description =>
      match split size_mark description with
      | first :: _ :: _ =>
          let raw_title := replace folder_mark "" first in
          match stream_url stream with
          | None => Raises (OtherException "AttributeError")
          | Some url =>
              match split hash_mark url with
              | _ :: info_hash :: _ =>
                  if bool_decide (info_hash = "") || bool_decide (raw_title = "")
                  then Returns Skipped
                  else Returns (Entry info_hash raw_title)
              | _ => Returns (Invalid ("Invalid stream URL: " +:+ url))
              end
          end
      | _ => Returns (Invalid ("Invalid stream description: " +:+ description))
      end
  end.

Fixpoint collect (streams : list stream) (torrents : gmap string string)
    : result (gmap string string) * list event :=
  match streams with
  | [] => (Returns torrents, [])
  | stream :: rest =>
      match stream_step stream with
      | Raises e => (Raises e, [])
      | Returns (Invalid message) =>
          let '(torrents, log) := collect rest torrents in
          (torrents, Log WARNING message :: log)
      | Returns Skipped => collect rest torrents
      | Returns (Entry info_hash raw_title) =>
          collect rest (<[info_hash := raw_title]> torrents)
      end
  end.

Definition found (it : item) (torrents : gmap string string) : event :=
  if dict_truthy torrents
  then Log SCRAPER ("Found " +:+ pretty (size torrents) +:+ " streams for " +:+ log_string it)
  else Log NOT_FOUND ("No streams found for " +:+ log_string it).

Section Scrape.

(** [_get_stremio_identifier] of [scrapers.shared]: the identifier, the
    scrape type and the IMDb id of an item. *)
Variable _get_stremio_identifier : item → option string * string * string.

Definition scrape_url (settings : MediafusionSettings) (self : Mediafusion) (it : item)
    : string :=
  let '(identifier, scrape_type, imdb_id) := _get_stremio_identifier it in
  let url := url settings +:+ "/" +:+ default "None" (encrypted_string self)
             +:+ "/stream/" +:+ scrape_type +:+ "/" +:+ imdb_id in
  let url := if str_truthy identifier then url +:+ default "" identifier else url in
  url +:+ ".json".

Definition scrape (settings : MediafusionSettings) (self : Mediafusion) (it : item)
    (answer : result (response (list stream)))
    : result (gmap string string) * list event :=
  let request := Execute GET (scrape_url settings self it) None in
  match answer with
  | Raises e => (Raises e, [request])
  | Returns response =>
      if negb (is_ok response) || bool_decide (length (data response) ≤ 0)%nat
      then (Returns ∅, [request])
      else match collect (data response) ∅ with
           | (Raises e, log) => (Raises e, request :: log)
           | (Returns torrents, log) =>
               (Returns torrents, request :: log ++ [found it torrents])
           end
  end.

(** What the [except] clauses of [run] log for [e]. *)
Definition handled (it : item) (e : error) : event :=
  match e with
  | RateLimitExceeded =>
      Log WARNING ("Mediafusion ratelimit exceeded for item: " +:+ log_string it)
  | ConnectTimeout =>
      Log WARNING ("Mediafusion connection timeout for item: " +:+ log_string it)
  | ReadTimeout _ =>
      Log WARNING ("Mediafusion read timeout for item: " +:+ log_string it)
  | RequestException _ => LogException ERROR "Mediafusion request exception: " e
  | OtherException _ => LogException ERROR "Mediafusion exception thrown: " e
  end.

(** [item] is [None] or an item. *)
Definition run (settings : MediafusionSettings) (self : Mediafusion) (it : option item)
    (answer : result (response (list stream))) : gmap string string * list event :=
  match it with
  | None => (∅, [])
  | Some it =>
      match scrape settings self it answer with
      | (Returns torrents, evs) => (torrents, evs)
      | (Raises e, evs) => (∅, evs ++ [handled it e])
      end
  end.

End Scrape.

(** A stream as Mediafusion describes a torrent: the title behind the
    folder mark, then the size mark and further details; the info-hash is
    the query of the URL. *)
Definition listed (title details base info_hash : string) : stream :=
  {| description := Some (folder_mark +:+ title +:+ size_mark +:+ details);
     stream_url := Some (base +:+ hash_mark +:+ info_hash) |}.

End Mediafusion.

(** * Concrete accounts and responses

    The inputs at which the properties below are instantiated and at which
    the code is evaluated. *)

Module Scenarios.

(** A transport without state: the answer of an endpoint depends on the
    request only. *)
Definition scripted
    (magnet : outcome (response string))
    (avail : list string → outcome (response availability))
    (info : string → outcome (response torrent_info))
    (selected : outcome (response unit))
    (listing : outcome (response (list Torrent))) : Transport unit :=
  {| post_addMagnet := λ _ w, (magnet, w);
     get_instantAvailability := λ hashes w, (avail hashes, w);
     get_info := λ rid w, (info rid, w);
     post_selectFiles := λ _ _ w, (selected, w);
     get_torrents_page := λ _ w, (listing, w) |}.

Definition ok {A} (a : A) : outcome (response A) := Ret {| is_ok := true; data := a |}.

(** Modelled from the spec: the Movie/Episode rule of the File Matcher,
    the first candidate in listing order that passes the size gate; shows
    and seasons are not matched by this stand-in. *)
Definition first_in_bounds (finder : FileFinder) (it : MediaItem) (files : list pyfile)
    : list pyfile :=
  match it with
  | MovieItem _ | EpisodeItem _ =>
      take 1 (filter (λ f, match f with
                           | Candidate c => passes_filesize_gate finder (filesize c)
                           | RawInfo _ => false
                           end = true) files)
  | _ => []
  end.

(** Last path component, for the paths used here. *)
Fixpoint basename_from (acc : string) (p : string) : string :=
  match p with
  | EmptyString => acc
  | String c rest =>
      if Ascii.eqb c "/"%char then basename_from "" rest
      else basename_from (acc +:+ String c "") rest
  end.

(** Filesize bounds in megabytes: movies from 200, episodes from 40, no
    upper bound for either. *)
Definition settings : DownloadSettings :=
  {| movie_filesize_min := 200; movie_filesize_max := -1;
     episode_filesize_min := 40; episode_filesize_max := -1 |}.

Definition downloader (t : Transport unit) : Downloader unit :=
  {| http := t; Path_name := basename_from "";
     find_required_files := first_in_bounds; download_settings := settings |}.

Definition stream1 : Stream := {| infohash := "aaaa"; raw_title := "Movie.2020.1080p" |}.
Definition stream2 : Stream := {| infohash := "bbbb"; raw_title := "Movie.2020.720p" |}.

Definition movie : MediaItem :=
  MovieItem {| log_string := "Movie (2020)";
               streams := [stream1; stream2];
               blacklisted_streams := [];
               item_folder := None; item_alternative_folder := None;
               item_file := None |}.

Definition start (it : MediaItem) : state unit :=
  {| remote := tt; item := it; active_stream := None; events := [] |}.

(** An availability response: nothing usable for ["aaaa"] (a list instead
    of a dictionary), one container with the film and a sample for
    ["bbbb"]. *)
Definition film : avail_file := {| a_filename := "movie.mkv"; a_filesize := 1200000000 |}.
Definition sample : avail_file := {| a_filename := "sample.mkv"; a_filesize := 20000000 |}.

Definition cached : availability :=
  [("aaaa", NotDict (JList []));
   ("bbbb", Hosters [("rd", [[("7", film); ("8", sample)]])])].

(** The provider answers for the hashes it is asked about. *)
Definition cached_for (hashes : list string) : outcome (response availability) :=
  ok (filter (λ entry, entry.1 ∈ hashes) cached).

(** The match the resolver hands to [download] for ["bbbb"]. *)
Definition film_match : list pyfile :=
  [Candidate {| filename := "movie.mkv"; filesize := 1200000000; id := IdKey "7" |}].

(** Two torrents of the account with the same info-hash: in [good] the
    film is selected, in [bad] only the sample is. *)
Definition good : Torrent := {| torrent_id := "GOOD1"; torrent_hash := "bbbb" |}.
Definition bad : Torrent := {| torrent_id := "BAD2"; torrent_hash := "bbbb" |}.

Definition good_files : list info_file :=
  [ {| f_id := 1; f_path := "/Movie/movie.mkv"; f_bytes := 1200000000; f_selected := true |};
    {| f_id := 2; f_path := "/Movie/sample.mkv"; f_bytes := 20000000; f_selected := false |} ].

Definition bad_files : list info_file :=
  [ {| f_id := 1; f_path := "/Movie/movie.mkv"; f_bytes := 1200000000; f_selected := false |};
    {| f_id := 2; f_path := "/Movie/sample.mkv"; f_bytes := 20000000; f_selected := true |} ].

Definition info_with (fs : list info_file) : torrent_info :=
  {| i_files := Some fs; i_filename := Some "Movie";
     i_original_filename := Some "Movie.2020" |}.

Definition info_of (rid : string) : outcome (response torrent_info) :=
  if bool_decide (rid = "GOOD1") then ok (info_with good_files)
  else ok (info_with bad_files).

(** The account lists [bad] first and [good] last. *)
Definition account_good_last : Downloader unit :=
  downloader (scripted (ok "NEW3") cached_for info_of (ok tt) (ok [bad; good])).

(** The account lists [good] first and [bad] last. *)
Definition account_good_first : Downloader unit :=
  downloader (scripted (ok "NEW3") cached_for info_of (ok tt) (ok [good; bad])).

(** The film is cached, the account is empty, and adding the magnet times
    out. *)
Definition magnet_times_out : Downloader unit :=
  downloader (scripted (Raise ConnectTimeout) cached_for info_of (ok tt) (ok [])).

(** The account holds the torrent, and the info call for it times out. *)
Definition info_times_out : Downloader unit :=
  downloader (scripted (ok "NEW3") cached_for (λ _, Raise ConnectTimeout) (ok tt)
                       (ok [good])).

(** Every call of the transport raises. *)
Definition offline : Downloader unit :=
  downloader (scripted (Raise ConnectTimeout) (λ _, Raise ConnectTimeout)
                       (λ _, Raise ConnectTimeout) (Raise ConnectTimeout)
                       (Raise ConnectTimeout)).

(** A file of 100 MB offered for a movie. *)
Definition small_size : Z := 100000000.

End Scenarios.

(** * A series and further accounts *)

Module Series.

Import Scenarios.

(** The tag of the [n]-th episode in a file name, ["E01"] for 1. *)
Definition episode_tag (n : nat) : string :=
  "E0" +:+ String (ascii_of_nat (48 + n)) "".

Definition names_episode (n : nat) (f : pyfile) : bool :=
  match f with
  | Candidate c =>
      match String.index 0 (episode_tag n) (filename c) with
      | Some _ => passes_filesize_gate (init_finder settings) (filesize c)
      | None => false
      end
  | RawInfo _ => false
  end.

Definition episode_match (files : list pyfile) (e : Episode) : list pyfile :=
  take 1 (filter (λ f, names_episode (episode_number e) f = true) files).

(** Modelled from the spec: the rules of the File Matcher for every kind
    of item. An episode is matched by the first file in bounds whose name
    carries its tag; a season or a show by the files of all its episodes, or
    by nothing when one of them has none. *)
Definition by_episode (finder : FileFinder) (it : MediaItem) (files : list pyfile)
    : list pyfile :=
  let all_of (es : list Episode) :=
    if forallb (λ e, list_truthy (episode_match files e)) es
    then es ≫= episode_match files else [] in
  match it with
  | MovieItem _ => first_in_bounds finder it files
  | EpisodeItem e => episode_match files e
  | SeasonItem se => all_of (episodes se)
  | ShowItem sh => all_of (seasons sh ≫= episodes)
  end.

Definition blank (name : string) : ItemCore :=
  {| log_string := name; streams := []; blacklisted_streams := [];
     item_folder := None; item_alternative_folder := None; item_file := None |}.

Definition episode (n : nat) : Episode :=
  {| episode_core := blank "Show episode"; episode_number := n |}.

Definition season1 : Season :=
  {| season_core := blank "Show S01"; season_number := 1;
     episodes := [episode 1; episode 2] |}.

Definition season2 : Season :=
  {| season_core := blank "Show S02"; season_number := 2;
     episodes := [episode 3] |}.

Definition show : Show :=
  {| show_core := blank "Show"; seasons := [season1; season2] |}.

(** A pack with a sample and the three episodes, the third one first. *)
Definition pack : list pyfile :=
  [Candidate {| filename := "Show.E03.mkv"; filesize := 700000000; id := IdKey "1" |};
   Candidate {| filename := "Show.E01.sample.mkv"; filesize := 9000000; id := IdKey "2" |};
   Candidate {| filename := "Show.E01.mkv"; filesize := 500000000; id := IdKey "3" |};
   Candidate {| filename := "Show.E02.mkv"; filesize := 480000000; id := IdKey "4" |}].

Definition pack_info : torrent_info :=
  {| i_files := Some []; i_filename := Some "Show";
     i_original_filename := Some "Show.1080p" |}.

(** An info record of a torrent that is not ready: it has its [filename]
    only. *)
Definition bare_info : torrent_info :=
  {| i_files := None; i_filename := Some "Movie"; i_original_filename := None |}.

Definition account (info : torrent_info) : Downloader unit :=
  {| http := scripted (ok "NEW3") cached_for (λ _, ok info) (ok tt) (ok []);
     Path_name := basename_from ""; find_required_files := by_episode;
     download_settings := settings |}.

(** The availability endpoint reports one container with a sample for every
    hash it is asked about. *)
Definition only_samples : Downloader unit :=
  downloader (scripted (ok "NEW3")
                       (λ hashes, ok ((λ h, (h, Hosters [("rd", [[("8", sample)]])])) <$> hashes))
                       info_of (ok tt) (ok [])).

(** A movie whose streams have all been tried. *)
Definition tried : MediaItem :=
  MovieItem {| log_string := "Movie (2020)";
               streams := [stream1; stream2];
               blacklisted_streams := [stream2; stream1];
               item_folder := None; item_alternative_folder := None;
               item_file := None |}.

(** 22 hours and 13 minutes. *)
Definition most_of_a_day : Validation.timedelta :=
  {| Validation.days := 0; Validation.seconds := 80000 |}.

End Series.

(** * Answers to the scrapers *)

Module Feeds.

Import Scraping.

Definition feature : item :=
  {| type := "movie"; imdb_id := "tt0111161"; number := 0; parent_number := 0;
     log_string := "Movie (2020)" |}.

(** A listing of TorBox: two torrents with the same hash, one without a
    title and one with an empty hash. *)
Definition torbox_listing : list TorBox.torrent_data :=
  [ {| TorBox.raw_title := Some "Movie.2020.720p"; TorBox.hash := Some "aaaa" |};
    {| TorBox.raw_title := None; TorBox.hash := Some "cccc" |};
    {| TorBox.raw_title := Some "Movie.2020.1080p"; TorBox.hash := Some "aaaa" |};
    {| TorBox.raw_title := Some "Movie.2020.2160p"; TorBox.hash := Some "" |} ].

Definition torbox_answer : result (response (list TorBox.torrent_data)) :=
  Returns {| is_ok := true; data := torbox_listing |}.

(** The response of a [RequestException] for the status 418: of a
    [requests.Response] with an error status, so falsy. *)
Definition teapot : option http_response :=
  Some {| truth := false; status_code := 418 |}.

Definition identify (it : item) : option string * string * string :=
  (None, "movie", imdb_id it).

Definition mediafusion_settings : Mediafusion.MediafusionSettings :=
  {| Mediafusion.enabled := true; Mediafusion.url := "http://mediafusion";
     Mediafusion.timeout := 10; Mediafusion.ratelimit := true;
     Mediafusion.catalogs := ["torrentio_streams"] |}.

Definition scraper : Mediafusion.Mediafusion :=
  {| Mediafusion.api_key := Some "KEY"; Mediafusion.downloader := Some "realdebrid";
     Mediafusion.encrypted_string := Some "ENC" |}.

(** A stream without the size mark in its description, then one as
    Mediafusion lists them. *)
Definition unmarked : Mediafusion.stream :=
  {| Mediafusion.description := Some "Movie.2020.720p";
     Mediafusion.stream_url := Some "http://mediafusion/stream?info_hash=bbbb" |}.

Definition mediafusion_streams : list Mediafusion.stream :=
  [unmarked;
   Mediafusion.listed "Movie.2020.1080p" " 1.2 GB" "http://mediafusion/stream" "aaaa"].

(** A stream without a description. *)
Definition undescribed : Mediafusion.stream :=
  {| Mediafusion.description := None;
     Mediafusion.stream_url := Some "http://mediafusion/stream?info_hash=cccc" |}.

End Feeds.

(** * Properties *)

Section Properties.

Context {W : Type} {rd : Downloader W}.

Implicit Types (s : state W) (it : MediaItem) (d : gmap string (list pyfile)).

(** ** Stepping the monad *)

Lemma bind_run {A B} (m : M W A) (k : A → M W B) s :
  (m ≫= k) s =
  match m s with
  | (Ret a, s') => k a s'
  | (Raise e, s') => (Raise e, s')
  end.
Proof. reflexivity. Qed.

Lemma emit_run ev s : emit ev s = (Ret tt, add_events s [ev]).
Proof. reflexivity. Qed.

Lemma add_events_nil s : add_events s [] = s.
Proof. destruct s; unfold add_events; simpl. by rewrite app_nil_r. Qed.

Lemma add_events_app s evs1 evs2 :
  add_events (add_events s evs1) evs2 = add_events s (evs1 ++ evs2).
Proof. unfold add_events; simpl. by rewrite app_assoc. Qed.

Lemma finder_call_run it files s :
  finder_call it files s =
  (Ret (find_required_files finder it files), add_events s [FinderCall it files]).
Proof. reflexivity. Qed.

Ltac step :=
  unfold add_magnet, get_instant_availability, get_torrent_info, select_files,
    get_torrents, try_except, call, logger, emit, mbind, M_bind, mret, M_ret;
  simpl.

(** ** Provider client *)

(** C8. [get_instant_availability] on an empty hash list returns an empty
    mapping, hands no request to the transport (the remote world is left
    as it was and the only new event is a log entry) and logs at error
    level. *)
Theorem get_instant_availability_empty s :
  get_instant_availability [] s =
  (Ret [], {| remote := remote s; item := item s;
              active_stream := active_stream s;
              events := events s ++ [Log ERROR "No hashes found"] |}).
Proof. reflexivity. Qed.

(** C10. Each remote API method always returns: whatever the transport
    does, the outcome is a value, never a raised exception; and when the
    transport call raises, the value is the method's default ([None], an
    empty mapping, an empty record, [False], an empty mapping). *)
Theorem api_methods_never_raise s :
  (∀ hash, ∃ v s', add_magnet hash s = (Ret v, s') ∧
     ∀ e w, post_addMagnet http hash (remote s) = (Raise e, w) → v = None) ∧
  (∀ hashes, ∃ v s', get_instant_availability hashes s = (Ret v, s') ∧
     ∀ e w, get_instantAvailability http hashes (remote s) = (Raise e, w) → v = []) ∧
  (∀ request_id, ∃ v s', get_torrent_info request_id s = (Ret v, s') ∧
     ∀ rid e w, request_id = Some rid →
       get_info http rid (remote s) = (Raise e, w) → v = empty_info) ∧
  (∀ request_id container, ∃ v s', select_files request_id container s = (Ret v, s') ∧
     ∀ e w, post_selectFiles http request_id (pyfile_id <$> container) (remote s)
            = (Raise e, w) → v = false) ∧
  (∀ limit, ∃ v s', get_torrents limit s = (Ret v, s') ∧
     ∀ e w, get_torrents_page http limit (remote s) = (Raise e, w) → v = ∅).
Proof.
  repeat split.
  - intros hash. step.
    destruct (post_addMagnet http hash (remote s)) as [[[[] r]|e] w]; simpl;
      eexists _, _; (split; [reflexivity | done || congruence]).
  - intros [|h hashes]; simpl.
    { eexists _, _; split; [reflexivity | done]. }
    step.
    destruct (get_instantAvailability http (h :: hashes) (remote s)) as [[[[] r]|e] w];
      simpl; eexists _, _; (split; [reflexivity | done || congruence]).
  - intros [rid|]; simpl.
    2: { eexists _, _; split; [reflexivity | congruence]. }
    step. case_bool_decide; simpl.
    { eexists _, _; split; [reflexivity | done]. }
    destruct (get_info http rid (remote s)) as [[[[] r]|e] w] eqn:E; simpl;
      eexists _, _; (split; [reflexivity | done || (intros ??? [= <-]; congruence)]).
  - intros request_id container. step.
    destruct (post_selectFiles http request_id (pyfile_id <$> container) (remote s))
      as [[[[] r]|e] w]; simpl; eexists _, _; (split; [reflexivity | done || congruence]).
  - intros limit. step.
    destruct (get_torrents_page http limit (remote s)) as [[[[] [|t r]]|e] w]; simpl;
      eexists _, _; (split; [reflexivity | done || congruence]).
Qed.

(** The dictionary built from a listing binds a hash to the last torrent
    listed with it. *)
Lemma torrents_by_hash_lookup (listing : list Torrent) (h : string) :
  torrents_by_hash listing !! h = last (filter (λ t, torrent_hash t = h) listing).
Proof.
  unfold torrents_by_hash.
  induction listing as [|t listing IH] using rev_ind; [apply lookup_empty|].
  rewrite foldl_app, filter_app, filter_cons, filter_nil; simpl.
  destruct (decide (torrent_hash t = h)) as [->|Hne].
  - rewrite last_snoc. apply lookup_insert_eq.
  - rewrite app_nil_r. by rewrite lookup_insert_ne.
Qed.

Lemma get_torrents_run limit s (listing : list Torrent) w :
  get_torrents_page http limit (remote s) = (Ret {| is_ok := true; data := listing |}, w) →
  get_torrents limit s =
  (Ret (torrents_by_hash listing),
   {| remote := w; item := item s; active_stream := active_stream s;
      events := events s ++ [Request (Torrents limit)] |}).
Proof. intros Hpage. step. rewrite Hpage; simpl. by destruct listing. Qed.


(** C6, as the code has it. When the listing call succeeds, the mapping
    returned by [get_torrents] binds every info-hash to the last torrent
    the provider listed with that hash. *)
Theorem get_torrents_keeps_last limit s (listing : list Torrent) w :
  get_torrents_page http limit (remote s) = (Ret {| is_ok := true; data := listing |}, w) →
  ∃ torrents s',
    get_torrents limit s = (Ret torrents, s') ∧
    ∀ h, torrents !! h = last (filter (λ t, torrent_hash t = h) listing).
Proof.
  intros Hpage. rewrite (get_torrents_run _ _ _ _ Hpage).
  eexists _, _; split; [reflexivity|]. apply torrents_by_hash_lookup.
Qed.

(** ** Cache resolver *)

Lemma first_match_app it cs1 cs2 :
  first_match it (cs1 ++ cs2) =
  match first_match it cs1 with
  | Some r => Some r
  | None => first_match it cs2
  end.
Proof.
  induction cs1 as [|[h c] cs1 IH]; simpl; [done|].
  by destruct (list_truthy (matched it c)).
Qed.

Lemma through_first_match_app it cs1 cs2 :
  through_first_match it (cs1 ++ cs2) =
  match first_match it cs1 with
  | Some _ => through_first_match it cs1
  | None => cs1 ++ through_first_match it cs2
  end.
Proof.
  induction cs1 as [|[h c] cs1 IH]; simpl; [done|].
  destruct (list_truthy (matched it c)); [done|].
  rewrite IH. by destruct (first_match it cs1).
Qed.

Lemma through_first_match_none it cs :
  first_match it cs = None → through_first_match it cs = cs.
Proof.
  induction cs as [|[h c] cs IH]; simpl; [done|].
  destruct (list_truthy (matched it c)); [done|]. intros Hn. by rewrite IH.
Qed.

(** With [break_on_first] set the three loops stop at the first accepted
    container: they call the finder on the containers up to it and return
    the dictionary extended by that one match. *)
Lemma containers_loop_true h container_list d s :
  containers_loop true h container_list d s =
  (Ret (stop_at_first (item s) (pair h <$> container_list) d),
   add_events s (calls_for (item s) (through_first_match (item s) (pair h <$> container_list)))).
Proof.
  revert s. induction container_list as [|c rest IH]; intros s.
  - unfold stop_at_first; simpl. by rewrite add_events_nil.
  - cbn [containers_loop]. rewrite bind_run. unfold get_item.
    rewrite bind_run, finder_call_run. fold (matched (item s) c).
    unfold stop_at_first, calls_for. rewrite fmap_cons.
    cbn [first_match through_first_match].
    destruct (list_truthy (matched (item s) c)) eqn:Hm; [done|].
    rewrite IH, add_events_app. by rewrite fmap_cons.
Qed.

Lemma hosters_loop_true h values d s :
  hosters_loop true h values d s =
  (Ret (stop_at_first (item s) (container_list ← values; pair h <$> container_list) d),
   add_events s (calls_for (item s)
     (through_first_match (item s) (container_list ← values; pair h <$> container_list)))).
Proof.
  revert s. induction values as [|container_list rest IH]; intros s.
  - unfold stop_at_first; simpl. by rewrite add_events_nil.
  - cbn [hosters_loop]. rewrite bind_run, containers_loop_true.
    rewrite bind_cons. unfold stop_at_first.
    rewrite first_match_app, through_first_match_app.
    destruct (first_match (item s) (pair h <$> container_list))
      as [[h' files]|] eqn:Hfirst; [done|].
    rewrite (through_first_match_none _ _ Hfirst).
    rewrite IH; simpl. unfold calls_for. by rewrite add_events_app, fmap_app.
Qed.

Lemma hashes_loop_true cached_hashes d s :
  hashes_loop true cached_hashes d s =
  (Ret (stop_at_first (item s) (containers_of cached_hashes) d),
   add_events s (calls_for (item s)
     (through_first_match (item s) (containers_of cached_hashes)))).
Proof.
  revert s. induction cached_hashes as [|[h [hosters|payload]] rest IH]; intros s.
  - unfold stop_at_first; simpl. by rewrite add_events_nil.
  - cbn [hashes_loop]. rewrite bind_run, hosters_loop_true.
    unfold containers_of. rewrite bind_cons. fold (containers_of rest).
    unfold stop_at_first.
    rewrite first_match_app, through_first_match_app.
    destruct (first_match (item s) _) as [[h' files]|] eqn:Hfirst; [done|].
    rewrite (through_first_match_none _ _ Hfirst).
    rewrite IH; simpl. unfold calls_for. by rewrite add_events_app, fmap_app.
  - cbn [hashes_loop]. rewrite IH. unfold containers_of. by rewrite bind_cons.
Qed.

Lemma resolve_cached_true cached_hashes s :
  resolve_cached cached_hashes true s =
  (Ret (match first_match (item s) (containers_of cached_hashes) with
        | Some (h, files) => {[h := files]}
        | None => ∅
        end),
   add_events s (calls_for (item s)
     (through_first_match (item s) (containers_of cached_hashes)))).
Proof.
  unfold resolve_cached. destruct cached_hashes as [|entry rest].
  - simpl. by rewrite add_events_nil.
  - cbn [list_truthy]. rewrite bind_run, hashes_loop_true. unfold stop_at_first.
    destruct (first_match _ _) as [[h files]|]; [|done].
    simpl. by rewrite insert_empty.
Qed.

Lemma requests_of_app evs1 evs2 :
  requests_of (evs1 ++ evs2) = requests_of evs1 ++ requests_of evs2.
Proof. apply omap_app. Qed.

Lemma finder_calls_of_app evs1 evs2 :
  finder_calls_of (evs1 ++ evs2) = finder_calls_of evs1 ++ finder_calls_of evs2.
Proof. apply omap_app. Qed.

Lemma requests_of_calls_for it cs : requests_of (calls_for it cs) = [].
Proof. by induction cs. Qed.

Lemma finder_calls_of_calls_for it cs :
  finder_calls_of (calls_for it cs) = (λ hc, (it, tag_container hc.2)) <$> cs.
Proof. induction cs as [|hc cs IH]; [done|]. simpl. by f_equal. Qed.

(** On a non-empty hash list [get_instant_availability] hands exactly one
    request to the transport, for the whole list, and always returns. *)
Lemma get_instant_availability_run hashes s :
  hashes ≠ [] →
  ∃ cached_hashes w logs,
    get_instant_availability hashes s =
    (Ret cached_hashes,
     {| remote := w; item := item s; active_stream := active_stream s;
        events := events s ++ Request (InstantAvailability hashes) :: logs |}) ∧
    requests_of logs = [] ∧ finder_calls_of logs = [].
Proof.
  destruct hashes as [|h hashes]; [done|]. intros _. step.
  destruct (get_instantAvailability http (h :: hashes) (remote s)) as [[[[] r]|e] w];
    simpl.
  - by exists r, w, [].
  - by exists [], w, [].
  - eexists [], w, [_]. rewrite <- app_assoc. done.
Qed.

(** C1. For a non-empty list of candidate hashes, [is_cached] with
    [break_on_first] set hands exactly one request to the transport, the
    availability query for the whole list; it returns a mapping with at
    most one entry, the match of the first container (in the order of the
    availability response) that the finder accepts; and the finder is
    called on the containers up to and including that one and on none
    after it. *)
Theorem is_cached_break_on_first streams s :
  streams ≠ [] →
  ∃ cached_hashes s1 d s2 new,
    get_instant_availability streams s = (Ret cached_hashes, s1) ∧
    is_cached streams true s = (Ret d, s2) ∧
    events s2 = events s ++ new ∧
    requests_of new = [InstantAvailability streams] ∧
    (size d ≤ 1)%nat ∧
    d = match first_match (item s) (containers_of cached_hashes) with
        | Some (h, files) => {[h := files]}
        | None => ∅
        end ∧
    finder_calls_of new =
      (λ hc, (item s, tag_container hc.2)) <$>
        through_first_match (item s) (containers_of cached_hashes).
Proof.
  intros Hne.
  destruct (get_instant_availability_run streams s Hne)
    as (cached_hashes & w & logs & Hget & Hreq & Hcalls).
  unfold is_cached. rewrite bind_run, Hget, resolve_cached_true. simpl.
  exists cached_hashes; eexists _, _, _,
    (Request (InstantAvailability streams) :: logs ++
     calls_for (item s) (through_first_match (item s) (containers_of cached_hashes))).
  split; [reflexivity|]. split; [reflexivity|].
  split; [by unfold add_events; simpl; rewrite <- app_assoc|].
  change (Request ?r :: ?evs) with ([Request r] ++ evs).
  rewrite !requests_of_app, !finder_calls_of_app, Hreq, Hcalls.
  rewrite requests_of_calls_for, finder_calls_of_calls_for.
  split; [done|].
  split.
  { destruct (first_match _ _) as [[h files]|].
    - by rewrite map_size_singleton.
    - by rewrite map_size_empty; lia. }
  done.
Qed.

(** *** Loop invariants, for either value of [break_on_first]

    The loops always return, leave the item as it is, and keep any
    property of the dictionary that survives recording a non-empty match
    of one of the containers they range over. *)

Lemma containers_loop_inv (P : gmap string (list pyfile) → Prop) b h container_list it :
  (∀ d c, P d → c ∈ container_list → matched it c ≠ [] → P (<[h := matched it c]> d)) →
  ∀ d s, item s = it → P d →
  ∃ r s', containers_loop b h container_list d s = (Ret r, s') ∧
          item s' = it ∧ P (flow_dict r).
Proof.
  induction container_list as [|c rest IH]; intros Hstep d s Hit HP.
  - by eexists _, _.
  - cbn [containers_loop]. rewrite bind_run. unfold get_item.
    rewrite bind_run, finder_call_run, Hit. fold (matched it c).
    destruct (list_truthy (matched it c)) eqn:Hm.
    + assert (P (<[h := matched it c]> d)) as HP'.
      { apply Hstep; [done | by left | by destruct (matched it c)]. }
      destruct b; by eexists _, _.
    + apply IH; [|done..].
      intros d' c' ???. apply Hstep; [done | by right | done].
Qed.

Lemma hosters_loop_inv (P : gmap string (list pyfile) → Prop) b h values it :
  (∀ d container_list c, P d → container_list ∈ values → c ∈ container_list →
     matched it c ≠ [] → P (<[h := matched it c]> d)) →
  ∀ d s, item s = it → P d →
  ∃ r s', hosters_loop b h values d s = (Ret r, s') ∧
          item s' = it ∧ P (flow_dict r).
Proof.
  induction values as [|container_list rest IH]; intros Hstep d s Hit HP.
  - by eexists _, _.
  - cbn [hosters_loop]. rewrite bind_run.
    destruct (containers_loop_inv P b h container_list it) with (d := d) (s := s)
      as (r & s' & -> & Hit' & HP'); [|done..|].
    { intros d' c ???. apply (Hstep d' container_list); [done | by left | done..]. }
    destruct r as [d'|d']; [|by eexists _, _].
    apply IH; [|done..].
    intros d'' cl c ????. apply (Hstep d'' cl); [done | by right | done..].
Qed.

Lemma hashes_loop_inv (P : gmap string (list pyfile) → Prop) b cached_hashes it :
  (∀ d h hosters container_list c, P d →
     (h, Hosters hosters) ∈ cached_hashes → container_list ∈ hosters.*2 →
     c ∈ container_list → matched it c ≠ [] → P (<[h := matched it c]> d)) →
  ∀ d s, item s = it → P d →
  ∃ r s', hashes_loop b cached_hashes d s = (Ret r, s') ∧
          item s' = it ∧ P (flow_dict r).
Proof.
  induction cached_hashes as [|[h [hosters|payload]] rest IH]; intros Hstep d s Hit HP.
  - by eexists _, _.
  - cbn [hashes_loop]. rewrite bind_run.
    destruct (hosters_loop_inv P b h (hosters.*2) it) with (d := d) (s := s)
      as (r & s' & -> & Hit' & HP'); [|done..|].
    { intros d' cl c ????. apply (Hstep d' h hosters cl); [done | by left | done..]. }
    destruct r as [d'|d']; [|by eexists _, _].
    apply IH; [|done..].
    intros d'' h' hs cl c ?????. apply (Hstep d'' h' hs cl); [done | by right | done..].
  - cbn [hashes_loop]. apply IH; [|done..].
    intros d'' h' hs cl c ?????. apply (Hstep d'' h' hs cl); [done | by right | done..].
Qed.

Lemma resolve_cached_justified cached_hashes b s :
  ∃ d s', resolve_cached cached_hashes b s = (Ret d, s') ∧
          item s' = item s ∧ justified (item s) cached_hashes d.
Proof.
  unfold resolve_cached.
  destruct (list_truthy cached_hashes).
  - rewrite bind_run.
    destruct (hashes_loop_inv (justified (item s) cached_hashes) b cached_hashes (item s))
      with (d := (∅ : gmap string (list pyfile))) (s := s)
      as (r & s' & -> & Hit & HP); [|done| |by eexists _, _].
    + intros d h hosters cl c Hd Hin Hcl Hc Hm k files.
      destruct (decide (h = k)) as [->|Hne].
      * rewrite lookup_insert_eq. intros [= <-]. split; [done|].
        by exists hosters, cl, c.
      * rewrite lookup_insert_ne by done. apply Hd.
    + intros k files. by rewrite lookup_empty.
  - eexists _, _. split; [reflexivity|]. split; [done|].
    intros k files. by rewrite lookup_empty.
Qed.

(** [get_instant_availability] always returns and leaves the item alone. *)
Lemma get_instant_availability_returns hashes s :
  ∃ cached_hashes s1,
    get_instant_availability hashes s = (Ret cached_hashes, s1) ∧ item s1 = item s.
Proof.
  destruct hashes as [|h hashes]; [by eexists _, _|]. step.
  destruct (get_instantAvailability http (h :: hashes) (remote s)) as [[[[] r]|e] w];
    simpl; by eexists _, _.
Qed.

(** C2. [is_cached] always returns, and in the mapping it returns a hash
    all of whose reported containers are rejected by the finder is absent,
    and every key is bound to a non-empty list of matched files: the
    finder's result for the item on a container that the response reports
    under that very hash. Here [cached_hashes] is the availability
    response as [get_instant_availability] hands it to [is_cached]. *)
Theorem is_cached_no_false_positive streams b s :
  ∃ cached_hashes s1 d s2,
    get_instant_availability streams s = (Ret cached_hashes, s1) ∧
    is_cached streams b s = (Ret d, s2) ∧
    (∀ h, (∀ p, (h, p) ∈ cached_hashes → no_container_matches (item s) p) →
          d !! h = None) ∧
    (∀ h files, d !! h = Some files →
       files ≠ [] ∧
       ∃ hosters container_list c,
         (h, Hosters hosters) ∈ cached_hashes ∧ container_list ∈ hosters.*2 ∧
         c ∈ container_list ∧ files = matched (item s) c).
Proof.
  destruct (get_instant_availability_returns streams s) as (cached_hashes & s1 & Hget & Hit).
  destruct (resolve_cached_justified cached_hashes b s1) as (d & s2 & Hres & _ & Hj).
  exists cached_hashes, s1, d, s2. split; [done|].
  split; [by unfold is_cached; rewrite bind_run, Hget|].
  rewrite Hit in Hj. split.
  - intros h Hnone. destruct (d !! h) as [files|] eqn:Hd; [|done].
    destruct (Hj h files Hd) as (Hne & hosters & cl & c & Hin & Hcl & Hc & ->).
    destruct Hne. by apply (Hnone _ Hin cl c).
  - intros h files Hd. exact (Hj h files Hd).
Qed.

Lemma hashes_loop_skips_non_dict b pre h payload post d s :
  hashes_loop b (pre ++ (h, NotDict payload) :: post) d s =
  hashes_loop b (pre ++ post) d s.
Proof.
  revert d s. induction pre as [|[h' [hosters|payload']] pre IH]; intros d s.
  - done.
  - cbn [app hashes_loop]. rewrite !bind_run.
    destruct (hosters_loop b h' hosters.*2 d s) as [[[d'|d']|e] s']; [apply IH|done..].
  - cbn [app hashes_loop]. apply IH.
Qed.

Lemma resolve_cached_skips_non_dict b pre h payload post s :
  resolve_cached (pre ++ (h, NotDict payload) :: post) b s =
  resolve_cached (pre ++ post) b s.
Proof.
  unfold resolve_cached.
  replace (list_truthy (pre ++ (h, NotDict payload) :: post)) with true
    by (by destruct pre).
  rewrite bind_run, hashes_loop_skips_non_dict.
  destruct (pre ++ post) as [|entry rest] eqn:Hrest; [done|].
  cbn [list_truthy]. by rewrite bind_run.
Qed.

(** C9. A hash whose availability payload is not a dictionary is skipped,
    and only it: [is_cached] behaves exactly as [resolve_cached] does on
    the response without that entry, with the same mapping and the same
    events, finder calls included; the hash is absent from the mapping
    (its key occurs once in the response, as in any dictionary); and when
    it is the only entry nothing is called at all. *)
Theorem is_cached_skips_non_dict streams b s pre h payload post s1 :
  get_instant_availability streams s = (Ret (pre ++ (h, NotDict payload) :: post), s1) →
  ∃ d s2,
    is_cached streams b s = (Ret d, s2) ∧
    resolve_cached (pre ++ post) b s1 = (Ret d, s2) ∧
    (h ∉ (pre ++ post).*1 → d !! h = None) ∧
    (pre = [] → post = [] → d = ∅ ∧ s2 = s1).
Proof.
  intros Hget.
  destruct (resolve_cached_justified (pre ++ post) b s1) as (d & s2 & Hres & _ & Hj).
  exists d, s2.
  split; [by unfold is_cached; rewrite bind_run, Hget, resolve_cached_skips_non_dict|].
  split; [done|]. split.
  - intros Hfresh. destruct (d !! h) as [files|] eqn:Hd; [|done].
    destruct (Hj h files Hd) as (_ & hosters & _ & _ & Hin & _).
    destruct Hfresh. apply list_elem_of_fmap. by exists (h, Hosters hosters).
  - intros -> ->. by injection Hres as <- <-.
Qed.

(** ** Download orchestrator *)

(** *** Computations that leave the account alone *)

Lemma quiet_ret {A} (a : A) : quiet (mret a : M W A).
Proof. intros s. exists []. by rewrite app_nil_r. Qed.

Lemma quiet_raise {A} e : quiet (raise e : M W A).
Proof. intros s. exists []. by rewrite app_nil_r. Qed.

Lemma quiet_bind {A B} (m : M W A) (k : A → M W B) :
  quiet m → (∀ a, quiet (k a)) → quiet (m ≫= k).
Proof.
  intros Hm Hk s. rewrite bind_run.
  destruct (Hm s) as (new1 & Hev1 & Hq1).
  destruct (m s) as [[a|e] s1]; simpl in *.
  - destruct (Hk a s1) as (new2 & Hev2 & Hq2).
    exists (new1 ++ new2). rewrite Hev2, Hev1, app_assoc.
    split; [done|]. by apply Forall_app.
  - by exists new1.
Qed.

Lemma quiet_try_except {A} (body : M W A) handler :
  quiet body → (∀ e, quiet (handler e)) → quiet (try_except body handler).
Proof.
  intros Hm Hk s. unfold try_except.
  destruct (Hm s) as (new1 & Hev1 & Hq1).
  destruct (body s) as [[a|e] s1]; simpl in *.
  - by exists new1.
  - destruct (Hk e s1) as (new2 & Hev2 & Hq2).
    exists (new1 ++ new2). rewrite Hev2, Hev1, app_assoc.
    split; [done|]. by apply Forall_app.
Qed.

Lemma quiet_emit ev : is_mutation ev = false → quiet (emit ev : M W unit).
Proof. intros Hev s. exists [ev]. split; [done|]. by apply Forall_singleton. Qed.

Lemma quiet_logger lvl template : quiet (logger lvl template : M W unit).
Proof. by apply quiet_emit. Qed.

Lemma quiet_call {A} r (oracle : W → outcome (response A) * W) :
  is_mutation (Request r) = false → quiet (call r oracle).
Proof.
  intros Hr s. exists [Request r]. unfold call.
  destruct (oracle (remote s)) as [o w]. split; [done|]. by apply Forall_singleton.
Qed.

Lemma quiet_get_item : quiet (get_item : M W MediaItem).
Proof. intros s. exists []. by rewrite app_nil_r. Qed.

Lemma quiet_update_item g : quiet (update_item g : M W unit).
Proof. intros s. exists []. simpl. by rewrite app_nil_r. Qed.

Lemma quiet_set_active_stream stream : quiet (set_active_stream stream : M W unit).
Proof. intros s. exists []. simpl. by rewrite app_nil_r. Qed.

Lemma quiet_if {A} (c : bool) (m1 m2 : M W A) :
  quiet m1 → quiet m2 → quiet (if c then m1 else m2).
Proof. by destruct c. Qed.

Lemma quiet_getitem {A} key (entry : option A) : quiet (getitem key entry : M W A).
Proof. destruct entry; [apply quiet_ret | apply quiet_raise]. Qed.

Lemma quiet_first {A} (l : list A) : quiet (first l : M W A).
Proof. destruct l; [apply quiet_raise | apply quiet_ret]. Qed.

Lemma quiet_pyfile_filename f : quiet (pyfile_filename f : M W string).
Proof. destruct f; [apply quiet_ret | apply quiet_raise]. Qed.

Create HintDb quiet.
Hint Resolve quiet_ret quiet_raise quiet_logger quiet_get_item quiet_update_item
  quiet_set_active_stream quiet_getitem quiet_first quiet_pyfile_filename : quiet.
Hint Extern 2 (quiet (_ ≫= _)) => apply quiet_bind; [|intros ?] : quiet.
Hint Extern 2 (quiet (try_except _ _)) => apply quiet_try_except; [|intros ?] : quiet.
Hint Extern 2 (quiet (if _ then _ else _)) => apply quiet_if : quiet.
Hint Extern 2 (quiet (call _ _)) => apply quiet_call; reflexivity : quiet.
Hint Extern 2 (quiet (emit _)) => apply quiet_emit; reflexivity : quiet.

Lemma quiet_finder_call it files : quiet (finder_call it files).
Proof. unfold finder_call. auto with quiet. Qed.

Lemma quiet_get_torrent_info request_id : quiet (get_torrent_info request_id).
Proof.
  unfold get_torrent_info. destruct request_id as [rid|]; [|auto with quiet].
  auto 10 with quiet.
Qed.

Lemma quiet_get_torrents limit : quiet (get_torrents limit).
Proof. unfold get_torrents. auto 10 with quiet. Qed.

Hint Resolve quiet_finder_call quiet_get_torrent_info quiet_get_torrents : quiet.

Lemma quiet_bind_file t f info : quiet (bind_file t f info).
Proof. unfold bind_file. auto 20 with quiet. Qed.

Hint Resolve quiet_bind_file : quiet.

Lemma quiet_episodes_loop t ei eps files info : quiet (episodes_loop t ei eps files info).
Proof.
  revert ei. induction eps as [|episode rest IH]; intros ei; cbn [episodes_loop];
    auto 20 with quiet.
Qed.

Hint Resolve quiet_episodes_loop : quiet.

Lemma quiet_seasons_loop si ss files info : quiet (seasons_loop si ss files info).
Proof.
  revert si. induction ss as [|season rest IH]; intros si; cbn [seasons_loop];
    auto 20 with quiet.
Qed.

Hint Resolve quiet_seasons_loop : quiet.

(** The reuse check and the binding step never add a magnet and never
    select files. *)
Lemma quiet_torrent_is_downloaded hash_key : quiet (torrent_is_downloaded hash_key).
Proof.
  unfold torrent_is_downloaded.
  apply quiet_bind; [auto with quiet|intros _].
  apply quiet_bind; [auto with quiet|intros torrents].
  destruct (torrents !! hash_key); auto 20 with quiet.
Qed.

Lemma quiet_set_active_files torrent_id container :
  quiet (set_active_files torrent_id container).
Proof. unfold set_active_files. auto 30 with quiet. Qed.

(** *** What the callers make of a failed call

    The API methods answer a failed call with a default; the two lemmas
    below follow such a default through the download sequence, for any
    finder and any transport. *)

(** When the info call for the account's torrent raises,
    [get_torrent_info] returns [{}] and the reuse check raises on
    [info["files"]]. *)
Lemma torrent_is_downloaded_raises_without_info h s listing t w1 e w2 :
  get_torrents_page http 1000 (remote s)
    = (Ret {| is_ok := true; data := listing |}, w1) →
  last (filter (λ t', torrent_hash t' = h) listing) = Some t →
  torrent_id t ≠ "" →
  get_info http (torrent_id t) w1 = (Raise e, w2) →
  ∃ s', torrent_is_downloaded h s = (Raise (KeyError "files"), s').
Proof.
  intros Hpage Hlast Hid Hinfo.
  unfold torrent_is_downloaded. rewrite bind_run. unfold logger at 1. rewrite emit_run.
  match goal with |- context [add_events s ?evs] => set (s0 := add_events s evs) end.
  rewrite bind_run, (get_torrents_run 1000 s0 listing w1 Hpage).
  rewrite torrents_by_hash_lookup, Hlast. rewrite bind_run.
  unfold get_torrent_info. rewrite bool_decide_eq_false_2 by done.
  unfold try_except. rewrite bind_run. unfold call. cbn [remote].
  rewrite Hinfo. rewrite bind_run. unfold logger. rewrite emit_run.
  cbn [mret M_ret]. rewrite bind_run. cbn [i_files empty_info getitem raise].
  by eexists.
Qed.

(** With no torrent listed under the hash the reuse check answers [None]
    after the one listing request. *)
Lemma torrent_is_downloaded_not_listed h s listing w1 :
  get_torrents_page http 1000 (remote s)
    = (Ret {| is_ok := true; data := listing |}, w1) →
  filter (λ t', torrent_hash t' = h) listing = [] →
  torrent_is_downloaded h s =
  (Ret None,
   {| remote := w1; item := item s; active_stream := active_stream s;
      events := events s ++
        [Log DEBUG "Checking if torrent is already downloaded for item: {item.log_string}";
         Request (Torrents 1000);
         Log DEBUG "No matching torrent found for hash: {hash_key}"] |}).
Proof.
  intros Hpage Hnone.
  unfold torrent_is_downloaded. rewrite bind_run. unfold logger at 1. rewrite emit_run.
  match goal with |- context [add_events s ?evs] => set (s0 := add_events s evs) end.
  rewrite bind_run, (get_torrents_run 1000 s0 listing w1 Hpage).
  rewrite torrents_by_hash_lookup, Hnone. cbn [last].
  rewrite bind_run. unfold logger. rewrite emit_run. cbn [mret M_ret].
  unfold add_events; simpl. by rewrite <- !app_assoc.
Qed.

Lemma add_magnet_raised h s e w :
  post_addMagnet http h (remote s) = (Raise e, w) →
  add_magnet h s =
  (Ret None,
   {| remote := w; item := item s; active_stream := active_stream s;
      events := events s ++ [Request (AddMagnet h); Log ERROR "Failed to add magnet: {e}"] |}).
Proof. intros Hmagnet. step. rewrite Hmagnet; simpl. by rewrite <- app_assoc. Qed.

Lemma select_files_returns request_id container s :
  ∃ ok s', select_files request_id container s = (Ret ok, s') ∧ item s' = item s.
Proof.
  step.
  destruct (post_selectFiles http request_id (pyfile_id <$> container) (remote s))
    as [[[ok' []]|e] w]; simpl; by eexists _, _.
Qed.

(** Without a torrent id [get_torrent_info] returns [{}], and the binding
    of a movie raises: [IndexError] if the finder finds nothing in the
    container, [KeyError] otherwise. *)
Lemma set_active_files_raises_without_id container s c :
  item s = MovieItem c →
  container ≠ [] →
  ∃ e s', set_active_files None container s = (Raise e, s').
Proof.
  intros Hitem Hc. destruct container as [|f0 rest]; [done|].
  unfold set_active_files, get_torrent_info, logger, emit, get_item, finder_call,
    mbind, M_bind, mret, M_ret; simpl.
  rewrite Hitem; simpl.
  destruct (find_required_files _ _ _) as [|f found]; simpl; [by eexists _, _|].
  destruct f as [cand|raw]; simpl; by eexists _, _.
Qed.

(** When the account has no torrent for the hash and the add-magnet call
    raises, [add_magnet] returns [None] and the download sequence reaches
    the binding step with that [None]: for a movie it raises. *)
Lemma download_raises_without_magnet h container s c listing w1 e w2 :
  item s = MovieItem c →
  container ≠ [] →
  get_torrents_page http 1000 (remote s)
    = (Ret {| is_ok := true; data := listing |}, w1) →
  filter (λ t', torrent_hash t' = h) listing = [] →
  post_addMagnet http h w1 = (Raise e, w2) →
  ∃ e' s', download h container s = (Raise e', s').
Proof.
  intros Hitem Hc Hpage Hnone Hmagnet.
  unfold download.
  rewrite bind_run, (torrent_is_downloaded_not_listed h s listing w1 Hpage Hnone).
  cbn [id_truthy]. rewrite bind_run, bind_run.
  rewrite (add_magnet_raised h _ e w2) by exact Hmagnet.
  rewrite bind_run, emit_run, bind_run.
  match goal with |- context [select_files None container ?s1] =>
    destruct (select_files_returns None container s1) as (ok & s2 & -> & Hitem2)
  end.
  destruct (set_active_files_raises_without_id container s2 c) as (e' & s' & ->);
    [by rewrite Hitem2|done|].
  by eexists _, _.
Qed.

(** *** The top-level loop, one stream at a time *)

(** A blacklisted stream is passed over: no event, no request. *)
Lemma run_loop_skips_blacklisted stream rest s :
  stream ∈ blacklisted_streams (core (item s)) →
  run_loop (stream :: rest) s = run_loop rest s.
Proof.
  intros Hbl. cbn [run_loop]. rewrite bind_run.
  unfold is_stream_blacklisted, get_item. rewrite bind_run. cbn [mret M_ret].
  unfold stream_blacklisted. by rewrite bool_decide_eq_true_2.
Qed.

(** A stream without a cached match is put on the blacklist before the
    loop goes on. *)
Lemma run_loop_blacklists_uncached stream rest s s1 :
  stream ∉ blacklisted_streams (core (item s)) →
  is_cached [infohash stream] true s = (Ret ∅, s1) →
  run_loop (stream :: rest) s =
  (logger DEBUG "Blacklisting uncached hash ({stream.infohash}) for item: {item.log_string}";;
   blacklist_stream stream;;
   run_loop rest) s1.
Proof.
  intros Hbl Hcached. cbn [run_loop]. rewrite bind_run.
  unfold is_stream_blacklisted, get_item. rewrite bind_run. cbn [mret M_ret].
  unfold stream_blacklisted. rewrite bool_decide_eq_false_2 by done.
  by rewrite bind_run, Hcached.
Qed.

(** On a stream with a cached match under its own hash the loop hands
    that match to [download] and looks at no later stream. *)
Lemma run_loop_downloads_cached stream rest s file_dict s1 c :
  stream ∉ blacklisted_streams (core (item s)) →
  is_cached [infohash stream] true s = (Ret file_dict, s1) →
  file_dict !! infohash stream = Some c →
  run_loop (stream :: rest) s =
  (logger DEBRID "Item has cached containers, proceeding with: {item.log_string}";;
   download (infohash stream) c;;
   mret true) s1.
Proof.
  intros Hbl Hcached Hc. cbn [run_loop]. rewrite bind_run.
  unfold is_stream_blacklisted, get_item. rewrite bind_run. cbn [mret M_ret].
  unfold stream_blacklisted. rewrite bool_decide_eq_false_2 by done.
  rewrite bind_run, Hcached. unfold dict_truthy.
  rewrite bool_decide_eq_false_2; cbn [negb].
  - rewrite !bind_run. destruct (logger _ _ s1) as [[[]|e] s2]; [|done].
    by rewrite Hc.
  - intros ->. by rewrite lookup_empty in Hc.
Qed.

(** ** Filesize bounds *)

(** The finder built in [__init__] carries the episode bounds, whatever
    the movie bounds are; for every item that is not a movie these are
    the bounds of its content class. *)
Lemma init_finder_bounds ds it :
  (∀ c, it ≠ MovieItem c) →
  (min_filesize (init_finder ds), max_filesize (init_finder ds)) = class_bounds ds it.
Proof. intros Hit. destruct it; [by destruct (Hit c) | done..]. Qed.

Lemma init_finder_ignores_movie_bounds ds ds' :
  episode_filesize_min ds = episode_filesize_min ds' →
  episode_filesize_max ds = episode_filesize_max ds' →
  init_finder ds = init_finder ds'.
Proof. intros Hmin Hmax. unfold init_finder. by rewrite Hmin, Hmax. Qed.

(** * Properties of the other methods *)

(** ** Relations kept between the initial and the final state *)

Section Keeps.

Variable R : state W → state W → Prop.
Hypothesis R_base : ∀ s s', same_item s s' → R s s'.
Hypothesis R_trans : ∀ s1 s2 s3, R s1 s2 → R s2 s3 → R s1 s3.
Hypothesis R_write : ∀ t f v s, R s (update_item (item_write t f v) s).2.
Hypothesis R_stream : ∀ stream s, R s (set_active_stream stream s).2.

Lemma keeps_ret {A} (a : A) : keeps R (mret a : M W A).
Proof. intros s. by apply R_base. Qed.

Lemma keeps_raise {A} e : keeps R (raise e : M W A).
Proof. intros s. by apply R_base. Qed.

Lemma keeps_bind {A B} (m : M W A) (k : A → M W B) :
  keeps R m → (∀ a, keeps R (k a)) → keeps R (m ≫= k).
Proof.
  intros Hm Hk s. rewrite bind_run. specialize (Hm s).
  destruct (m s) as [[a|e] s1]; simpl in *; [|done].
  eapply R_trans; [done|]. apply Hk.
Qed.

Lemma keeps_try_except {A} (body : M W A) handler :
  keeps R body → (∀ e, keeps R (handler e)) → keeps R (try_except body handler).
Proof.
  intros Hm Hk s. unfold try_except. specialize (Hm s).
  destruct (body s) as [[a|e] s1]; simpl in *; [done|].
  eapply R_trans; [done|]. apply Hk.
Qed.

Lemma keeps_emit ev : keeps R (emit ev : M W unit).
Proof. intros s. by apply R_base. Qed.

Lemma keeps_logger lvl template : keeps R (logger lvl template : M W unit).
Proof. apply keeps_emit. Qed.

Lemma keeps_call {A} r (oracle : W → outcome (response A) * W) : keeps R (call r oracle).
Proof. intros s. unfold call. destruct (oracle (remote s)). by apply R_base. Qed.

Lemma keeps_get_item : keeps R (get_item : M W MediaItem).
Proof. intros s. by apply R_base. Qed.

Lemma keeps_if {A} (c : bool) (m1 m2 : M W A) :
  keeps R m1 → keeps R m2 → keeps R (if c then m1 else m2).
Proof. by destruct c. Qed.

Lemma keeps_getitem {A} key (entry : option A) : keeps R (getitem key entry : M W A).
Proof. destruct entry; [apply keeps_ret | apply keeps_raise]. Qed.

Lemma keeps_first {A} (l : list A) : keeps R (first l : M W A).
Proof. destruct l; [apply keeps_raise | apply keeps_ret]. Qed.

Lemma keeps_pyfile_filename f : keeps R (pyfile_filename f : M W string).
Proof. destruct f; [apply keeps_ret | apply keeps_raise]. Qed.

Lemma keeps_write t f v : keeps R (update_item (item_write t f v) : M W unit).
Proof. intros s. apply R_write. Qed.

Lemma keeps_set_active_stream stream : keeps R (set_active_stream stream : M W unit).
Proof. intros s. apply R_stream. Qed.

Create HintDb keeps.
Hint Resolve keeps_ret keeps_raise keeps_logger keeps_emit keeps_call keeps_get_item
  keeps_getitem keeps_first keeps_pyfile_filename : keeps.
Hint Extern 2 (keeps _ (_ ≫= _)) => apply keeps_bind; [|intros ?] : keeps.
Hint Extern 2 (keeps _ (try_except _ _)) => apply keeps_try_except; [|intros ?] : keeps.
Hint Extern 2 (keeps _ (if _ then _ else _)) => apply keeps_if : keeps.
Hint Extern 2 (keeps _ (match ?x with Some _ => _ | None => _ end)) => destruct x : keeps.

Lemma keeps_finder_call it files : keeps R (finder_call it files).
Proof. unfold finder_call. auto with keeps. Qed.

Lemma keeps_add_magnet hash : keeps R (add_magnet hash).
Proof. unfold add_magnet. auto 10 with keeps. Qed.

Lemma keeps_get_instant_availability hashes : keeps R (get_instant_availability hashes).
Proof. unfold get_instant_availability. auto 10 with keeps. Qed.

Lemma keeps_get_torrent_info request_id : keeps R (get_torrent_info request_id).
Proof. unfold get_torrent_info. auto 10 with keeps. Qed.

Lemma keeps_select_files request_id container : keeps R (select_files request_id container).
Proof. unfold select_files. auto 10 with keeps. Qed.

Lemma keeps_get_torrents limit : keeps R (get_torrents limit).
Proof. unfold get_torrents. auto 10 with keeps. Qed.

Hint Resolve keeps_finder_call keeps_add_magnet keeps_get_instant_availability
  keeps_get_torrent_info keeps_select_files keeps_get_torrents : keeps.

Lemma keeps_containers_loop b h container_list d :
  keeps R (containers_loop b h container_list d).
Proof.
  induction container_list as [|c rest IH]; cbn [containers_loop]; auto 10 with keeps.
Qed.

Hint Resolve keeps_containers_loop : keeps.

Lemma keeps_hosters_loop b h values d : keeps R (hosters_loop b h values d).
Proof.
  revert d. induction values as [|cl rest IH]; intros d; cbn [hosters_loop];
    [auto with keeps|].
  apply keeps_bind; [auto with keeps|]. intros [d'|d']; auto with keeps.
Qed.

Hint Resolve keeps_hosters_loop : keeps.

Lemma keeps_hashes_loop b cached_hashes d : keeps R (hashes_loop b cached_hashes d).
Proof.
  revert d. induction cached_hashes as [|[h [hosters|payload]] rest IH]; intros d;
    cbn [hashes_loop]; [auto with keeps| |auto with keeps].
  apply keeps_bind; [auto with keeps|]. intros [d'|d']; auto with keeps.
Qed.

Hint Resolve keeps_hashes_loop : keeps.

Lemma keeps_is_cached streams b : keeps R (is_cached streams b).
Proof. unfold is_cached, resolve_cached. auto 10 with keeps. Qed.

Lemma keeps_torrent_is_downloaded hash_key : keeps R (torrent_is_downloaded hash_key).
Proof. unfold torrent_is_downloaded. auto 20 with keeps. Qed.

Hint Resolve keeps_is_cached keeps_torrent_is_downloaded keeps_write
  keeps_set_active_stream : keeps.

Lemma keeps_bind_file t f info : keeps R (bind_file t f info).
Proof. unfold bind_file. auto 20 with keeps. Qed.

Hint Resolve keeps_bind_file : keeps.

Lemma keeps_episodes_loop t ei eps files info : keeps R (episodes_loop t ei eps files info).
Proof.
  revert ei. induction eps as [|episode rest IH]; intros ei; cbn [episodes_loop];
    auto 20 with keeps.
Qed.

Hint Resolve keeps_episodes_loop : keeps.

Lemma keeps_seasons_loop si ss files info : keeps R (seasons_loop si ss files info).
Proof.
  revert si. induction ss as [|season rest IH]; intros si; cbn [seasons_loop];
    auto 20 with keeps.
Qed.

Hint Resolve keeps_seasons_loop : keeps.

Lemma keeps_set_active_files torrent_id container :
  keeps R (set_active_files torrent_id container).
Proof. unfold set_active_files. auto 30 with keeps. Qed.

Hint Resolve keeps_set_active_files : keeps.

Lemma keeps_download stream container : keeps R (download stream container).
Proof. unfold download. auto 30 with keeps. Qed.

Lemma keeps_download_cached stream : keeps R (download_cached stream).
Proof.
  unfold download_cached.
  apply keeps_bind; [auto with keeps|intros torrent_id].
  apply keeps_bind; [auto 10 with keeps|intros [tid added]].
  auto 30 with keeps.
Qed.

End Keeps.

Lemma same_item_trans (s1 s2 s3 : state W) :
  same_item s1 s2 → same_item s2 s3 → same_item s1 s3.
Proof. intros [H1 H2] [H3 H4]. split; congruence. Qed.

Lemma mutations_of_app evs1 evs2 :
  mutations_of (evs1 ++ evs2) = mutations_of evs1 ++ mutations_of evs2.
Proof. unfold mutations_of. by rewrite filter_app, requests_of_app. Qed.

Lemma mutations_of_quiet evs :
  Forall (λ ev, is_mutation ev = false) evs → mutations_of evs = [].
Proof.
  unfold mutations_of. induction 1 as [|ev evs Hev _ IH]; [done|].
  rewrite filter_cons. destruct (decide (is_mutation ev = true)); [congruence|done].
Qed.

(** Splitting the cases of a computation whose branches depend on what the
    transport and the finder answer. *)
Ltac crack :=
  repeat (simpl;
          match goal with
          | |- context [match ?x with _ => _ end] =>
              lazymatch x with
              | context [match _ with _ => _ end] => fail
              | _ => destruct x eqn:?
              end
          end).

(** X1. Whatever the account and the transport answer, the reuse check
    [torrent_is_downloaded] only reads: it leaves the item and
    [self.active_stream] as they were, and the requests it hands to the
    transport are the listing of at most 1000 torrents, followed by at most
    one info request. *)
Theorem torrent_is_downloaded_only_reads hash_key s :
  item (torrent_is_downloaded hash_key s).2 = item s ∧
  active_stream (torrent_is_downloaded hash_key s).2 = active_stream s ∧
  ∃ new,
    events (torrent_is_downloaded hash_key s).2 = events s ++ new ∧
    (requests_of new = [Torrents 1000] ∨
     ∃ rid, requests_of new = [Torrents 1000; TorrentInfo rid]).
Proof.
  destruct (keeps_torrent_is_downloaded same_item (λ _ _ H, H) same_item_trans hash_key s)
    as [Hitem Hactive].
  split; [done|]. split; [done|]. clear Hitem Hactive.
  unfold torrent_is_downloaded, get_torrents, get_torrent_info, finder_call, get_item,
    getitem, raise, try_except, call, logger, emit, mbind, M_bind, mret, M_ret.
  crack; simpl; rewrite <- ?app_assoc; eexists; (split; [reflexivity|]); simpl; eauto.
Qed.

(** X2. [get_torrent_info] always returns; it hands the transport one
    info request when it is given a non-empty id and none at all when the id
    is [None] or empty, in which case the answer is [{}] and the remote side
    is left alone. *)
Theorem get_torrent_info_requests request_id s :
  ∃ info s' new,
    get_torrent_info request_id s = (Ret info, s') ∧
    events s' = events s ++ new ∧
    requests_of new = match request_id with
                      | Some rid => if bool_decide (rid = "") then [] else [TorrentInfo rid]
                      | None => []
                      end ∧
    (id_truthy request_id = false → info = empty_info ∧ remote s' = remote s).
Proof.
  unfold get_torrent_info, try_except, call, logger, emit, mbind, M_bind, mret, M_ret.
  destruct request_id as [rid|]; simpl.
  - case_bool_decide; simpl.
    + by eexists _, _, _.
    + destruct (get_info http rid (remote s)) as [[[[] info]|e] w]; simpl;
        rewrite <- ?app_assoc; by eexists _, _, _.
  - by eexists _, _, _.
Qed.

Lemma add_magnet_events hash s :
  ∃ v s' logs,
    add_magnet hash s = (Ret v, s') ∧
    events s' = events s ++ Request (AddMagnet hash) :: logs ∧
    Forall (λ ev, is_mutation ev = false) logs.
Proof.
  step. destruct (post_addMagnet http hash (remote s)) as [[[[] r]|e] w]; simpl;
    rewrite <- ?app_assoc; eexists _, _, _; (split; [reflexivity|]);
    (split; [reflexivity|]); repeat constructor.
Qed.

Lemma select_files_events request_id container s :
  ∃ ok s' logs,
    select_files request_id container s = (Ret ok, s') ∧
    events s' = events s ++ Request (SelectFiles request_id (pyfile_id <$> container)) :: logs ∧
    Forall (λ ev, is_mutation ev = false) logs.
Proof.
  step.
  destruct (post_selectFiles http request_id (pyfile_id <$> container) (remote s))
    as [[[ok' []]|e] w]; simpl;
    rewrite <- ?app_assoc; eexists _, _, _; (split; [reflexivity|]);
    (split; [reflexivity|]); repeat constructor.
Qed.

(** X3. Whatever the transport answers, the requests of [download] that
    change the account are either none, or one add-magnet request for the
    stream followed by one select-files request for exactly the file ids of
    the container it was given, in the container's order: it never adds a
    magnet twice and never selects files of a torrent it did not add. *)
Theorem download_mutations stream container s :
  ∃ new,
    events (download stream container s).2 = events s ++ new ∧
    (mutations_of new = [] ∨
     ∃ tid, mutations_of new
            = [AddMagnet stream; SelectFiles tid (pyfile_id <$> container)]).
Proof.
  unfold download. rewrite bind_run.
  destruct (quiet_torrent_is_downloaded stream s) as (new1 & Hev1 & Hq1).
  destruct (torrent_is_downloaded stream s) as [[torrent_id|e] s1]; simpl in Hev1.
  2: { exists new1. split; [done|]. left. by apply mutations_of_quiet. }
  destruct (id_truthy torrent_id).
  - match goal with |- context [(?m s1).2] => assert (quiet m) as Hq end.
    { pose proof quiet_set_active_files. auto 10 with quiet. }
    destruct (Hq s1) as (new2 & Hev2 & Hq2).
    exists (new1 ++ new2). rewrite Hev2, Hev1, app_assoc. split; [done|]. left.
    apply mutations_of_quiet. by apply Forall_app.
  - rewrite 2!bind_run.
    destruct (add_magnet_events stream s1) as (tid & s2 & logs & -> & Hev2 & Hlogs).
    rewrite bind_run, emit_run, bind_run.
    destruct (select_files_events tid container (add_events s2 [Sleep 1]))
      as (ok & s3 & logs' & -> & Hev3 & Hlogs').
    rewrite <- (bind_run (set_active_files tid container)
                  (λ _, set_active_stream stream;;
                        logger DEBUG "Downloaded {item.log_string}")).
    match goal with |- context [(?m s3).2] => assert (quiet m) as Hq end.
    { pose proof quiet_set_active_files. auto 10 with quiet. }
    destruct (Hq s3) as (new4 & Hev4 & Hq4).
    exists (new1 ++ [Request (AddMagnet stream)] ++ logs ++ [Sleep 1] ++
            [Request (SelectFiles tid (pyfile_id <$> container))] ++ logs' ++ new4).
    split.
    + rewrite Hev4, Hev3. simpl. rewrite Hev2, Hev1. by rewrite <- !app_assoc.
    + right. exists tid.
      rewrite !mutations_of_app, (mutations_of_quiet new1), (mutations_of_quiet logs),
        (mutations_of_quiet logs'), (mutations_of_quiet new4) by done.
      done.
Qed.

(** ** Composing computations by the requests that change the account *)










(** ** [get_cached_hashes]: the resolver without [break_on_first] *)

Lemma containers_loop_false h container_list d s :
  containers_loop false h container_list d s =
  (Ret (Next (record_first (item s) h container_list d)),
   add_events s (calls_for (item s) (through_first_match (item s) (pair h <$> container_list)))).
Proof.
  revert s. induction container_list as [|c rest IH]; intros s.
  - unfold record_first; simpl. by rewrite add_events_nil.
  - cbn [containers_loop]. rewrite bind_run. unfold get_item.
    rewrite bind_run, finder_call_run. fold (matched (item s) c).
    unfold record_first, calls_for. rewrite fmap_cons.
    cbn [first_match through_first_match].
    destruct (list_truthy (matched (item s) c)) eqn:Hm; [done|].
    rewrite IH, add_events_app. by rewrite fmap_cons.
Qed.

Lemma hosters_loop_false h values d s :
  hosters_loop false h values d s =
  (Ret (Next (record_hosters (item s) h values d)),
   add_events s (calls_for (item s)
     (container_list ← values; through_first_match (item s) (pair h <$> container_list)))).
Proof.
  revert d s. induction values as [|container_list rest IH]; intros d s.
  - simpl. by rewrite add_events_nil.
  - cbn [hosters_loop]. rewrite bind_run, containers_loop_false.
    rewrite IH, add_events_app. cbn [item add_events].
    unfold calls_for. by rewrite bind_cons, fmap_app.
Qed.

Lemma hashes_loop_false cached_hashes d s :
  hashes_loop false cached_hashes d s =
  (Ret (Next (record_all (item s) cached_hashes d)),
   add_events s (calls_for (item s) (examined (item s) cached_hashes))).
Proof.
  revert d s. induction cached_hashes as [|[h [hosters|payload]] rest IH]; intros d s.
  - simpl. by rewrite add_events_nil.
  - cbn [hashes_loop]. rewrite bind_run, hosters_loop_false.
    rewrite IH, add_events_app. cbn [item add_events].
    unfold examined, calls_for. by rewrite bind_cons, fmap_app.
  - cbn [hashes_loop]. rewrite IH. unfold examined. by rewrite bind_cons.
Qed.

Lemma first_match_accepts it h container_list c :
  c ∈ container_list → matched it c ≠ [] →
  ∃ files, first_match it (pair h <$> container_list) = Some (h, files).
Proof.
  induction container_list as [|c' rest IH]; intros Hin Hm; [by apply elem_of_nil in Hin|].
  rewrite fmap_cons. cbn [first_match].
  destruct (list_truthy (matched it c')) eqn:Hc'; [by eexists|].
  apply elem_of_cons in Hin as [->|Hin]; [|by apply IH].
  by destruct (matched it c').
Qed.

Lemma record_first_mono it h container_list d k :
  is_Some (d !! k) → is_Some (record_first it h container_list d !! k).
Proof.
  intros Hk. unfold record_first.
  destruct (first_match _ _) as [[h' files]|]; [|done].
  destruct (decide (h' = k)) as [->|Hne]; [by rewrite lookup_insert_eq|].
  by rewrite lookup_insert_ne.
Qed.

Lemma record_hosters_mono it h values d k :
  is_Some (d !! k) → is_Some (record_hosters it h values d !! k).
Proof.
  revert d. induction values as [|cl rest IH]; intros d Hk; [done|].
  apply IH. by apply record_first_mono.
Qed.

Lemma record_all_mono it cached_hashes d k :
  is_Some (d !! k) → is_Some (record_all it cached_hashes d !! k).
Proof.
  revert d. induction cached_hashes as [|[h [hosters|payload]] rest IH]; intros d Hk;
    [done| |by apply IH].
  apply IH. by apply record_hosters_mono.
Qed.

Lemma record_hosters_hit it h values d container_list c :
  container_list ∈ values → c ∈ container_list → matched it c ≠ [] →
  is_Some (record_hosters it h values d !! h).
Proof.
  revert d. induction values as [|cl rest IH]; intros d Hin Hc Hm;
    [by apply elem_of_nil in Hin|].
  apply elem_of_cons in Hin as [<-|Hin]; [|by apply (IH _ Hin)].
  apply (record_hosters_mono it h rest). unfold record_first.
  destruct (first_match_accepts it h _ c Hc Hm) as [files ->].
  by rewrite lookup_insert_eq.
Qed.

Lemma record_all_hit it cached_hashes d h hosters container_list c :
  (h, Hosters hosters) ∈ cached_hashes → container_list ∈ hosters.*2 →
  c ∈ container_list → matched it c ≠ [] →
  is_Some (record_all it cached_hashes d !! h).
Proof.
  revert d. induction cached_hashes as [|entry rest IH]; intros d Hin Hcl Hc Hm;
    [by apply elem_of_nil in Hin|].
  apply elem_of_cons in Hin as [<-|Hin]; [|by apply (IH _ Hin)].
  apply (record_all_mono it rest). by eapply record_hosters_hit.
Qed.

Lemma through_first_match_sublist it cs : through_first_match it cs `sublist_of` cs.
Proof.
  induction cs as [|[h c] cs IH]; [done|]. cbn [through_first_match].
  destruct (list_truthy (matched it c)).
  - apply sublist_skip, sublist_nil_l.
  - by apply sublist_skip.
Qed.

Lemma examined_sublist it cached_hashes :
  examined it cached_hashes `sublist_of` containers_of cached_hashes.
Proof.
  unfold examined, containers_of.
  induction cached_hashes as [|[h [hosters|payload]] rest IH]; [done| |by rewrite !bind_cons].
  rewrite !bind_cons. apply sublist_app; [|done].
  generalize (hosters.*2). intros values.
  induction values as [|cl values IHv]; [done|].
  rewrite !bind_cons. apply sublist_app; [|done]. apply through_first_match_sublist.
Qed.

(** X5. [get_cached_hashes] (the resolver without [break_on_first]) always
    returns and leaves the item as it is. In the mapping it returns every
    hash with at least one accepted container is bound; the finder is called
    on the reported containers in order, on each at most once, and within
    one list of containers on none after the first accepted one. *)
Theorem get_cached_hashes_complete streams s :
  ∃ cached_hashes s1 d s2,
    get_instant_availability streams s = (Ret cached_hashes, s1) ∧
    get_cached_hashes streams s = (Ret d, s2) ∧
    item s2 = item s ∧
    (∀ h hosters container_list c,
       (h, Hosters hosters) ∈ cached_hashes → container_list ∈ hosters.*2 →
       c ∈ container_list → matched (item s) c ≠ [] → is_Some (d !! h)) ∧
    events s2 = events s1 ++ calls_for (item s) (examined (item s) cached_hashes) ∧
    examined (item s) cached_hashes `sublist_of` containers_of cached_hashes.
Proof.
  destruct (get_instant_availability_returns streams s) as (cached_hashes & s1 & Hget & Hit).
  exists cached_hashes, s1.
  unfold get_cached_hashes, is_cached. rewrite bind_run, Hget.
  unfold resolve_cached. destruct cached_hashes as [|entry rest] eqn:Hch.
  - eexists _, _. split; [done|]. split; [reflexivity|]. split; [done|].
    split; [intros ???? Hin; by apply elem_of_nil in Hin|].
    split; [by rewrite app_nil_r|done].
  - cbn [list_truthy]. rewrite bind_run, hashes_loop_false. rewrite <- Hch, Hit.
    eexists _, _. split; [done|]. split; [reflexivity|]. split; [done|].
    split; [intros h hosters cl c; apply record_all_hit|].
    split; [done|]. apply examined_sublist.
Qed.

(** ** What the binding and the top-level loop leave alone *)

Lemma item_write_stream_lists t f v it :
  streams (core (item_write t f v it)) = streams (core it) ∧
  blacklisted_streams (core (item_write t f v it)) = blacklisted_streams (core it).
Proof. destruct t, it, f; done. Qed.

Lemma same_stream_lists_base (s s' : state W) : same_item s s' → same_stream_lists s s'.
Proof. intros [Hit _]. unfold same_stream_lists. by rewrite Hit. Qed.

Lemma same_stream_lists_trans (s1 s2 s3 : state W) :
  same_stream_lists s1 s2 → same_stream_lists s2 s3 → same_stream_lists s1 s3.
Proof. intros [H1 H2] [H3 H4]. split; congruence. Qed.

Lemma same_stream_lists_write t f v (s : state W) :
  same_stream_lists s (update_item (item_write t f v) s).2.
Proof. apply item_write_stream_lists. Qed.

Lemma same_stream_lists_stream stream (s : state W) :
  same_stream_lists s (set_active_stream stream s).2.
Proof. done. Qed.

Lemma download_keeps_stream_lists stream container :
  keeps same_stream_lists (download stream container).
Proof.
  apply keeps_download;
    [apply same_stream_lists_base | apply same_stream_lists_trans
    | apply same_stream_lists_write | apply same_stream_lists_stream].
Qed.

(** X6. Whatever the transport and the finder answer, and whether they
    return or raise, the binding step [set_active_files] and the two download
    sequences [download] and [download_cached] leave the item's candidate
    streams and its blacklist as they were: they write [folder],
    [alternative_folder] and [file] only. *)
Theorem binding_keeps_stream_lists :
  (∀ torrent_id container, keeps same_stream_lists (set_active_files torrent_id container)) ∧
  (∀ stream container, keeps same_stream_lists (download stream container)) ∧
  (∀ stream, keeps same_stream_lists (download_cached stream)).
Proof.
  split; [|split]; intros.
  - apply keeps_set_active_files;
      [apply same_stream_lists_base | apply same_stream_lists_trans
      | apply same_stream_lists_write].
  - apply keeps_download;
      [apply same_stream_lists_base | apply same_stream_lists_trans
      | apply same_stream_lists_write | apply same_stream_lists_stream].
  - apply keeps_download_cached;
      [apply same_stream_lists_base | apply same_stream_lists_trans
      | apply same_stream_lists_write | apply same_stream_lists_stream].
Qed.

(** ** [run] when nothing is to be found *)

Lemma run_loop_all_blacklisted ss s :
  (∀ stream, stream ∈ ss → stream ∈ blacklisted_streams (core (item s))) →
  run_loop ss s = (Ret false, s).
Proof.
  induction ss as [|stream rest IH]; intros Hall; [done|].
  rewrite run_loop_skips_blacklisted by (apply Hall; by left).
  apply IH. intros x Hx. apply Hall. by right.
Qed.

(** X8. When every candidate stream of the item is on its blacklist, [run]
    returns [False] and does nothing at all: no request, no log entry, no
    change of the item. *)
Theorem run_all_blacklisted s :
  (∀ stream, stream ∈ streams (core (item s)) →
             stream ∈ blacklisted_streams (core (item s))) →
  run s = (Ret false, s).
Proof.
  intros Hall. unfold run. rewrite bind_run. unfold get_item.
  by apply run_loop_all_blacklisted.
Qed.

Lemma containers_of_elem cached_hashes h c :
  (h, c) ∈ containers_of cached_hashes →
  ∃ hosters container_list,
    (h, Hosters hosters) ∈ cached_hashes ∧ container_list ∈ hosters.*2 ∧ c ∈ container_list.
Proof.
  unfold containers_of. intros Hin.
  apply list_elem_of_bind in Hin as ([h' p] & Hin & Hentry).
  destruct p as [hosters|payload]; [|by apply elem_of_nil in Hin].
  apply list_elem_of_bind in Hin as (cl & Hin & Hcl).
  apply list_elem_of_fmap in Hin as (c' & [= -> ->] & Hc).
  by exists hosters, cl.
Qed.

Lemma first_match_rejected it cs :
  (∀ h c, (h, c) ∈ cs → matched it c = []) → first_match it cs = None.
Proof.
  induction cs as [|[h c] cs IH]; intros Hall; [done|]. cbn [first_match].
  rewrite (Hall h c) by by left. cbn [list_truthy].
  apply IH. intros h' c' Hin. apply (Hall h' c'). by right.
Qed.

Lemma first_match_never it cached_hashes :
  (∀ h p, (h, p) ∈ cached_hashes → no_container_matches it p) →
  first_match it (containers_of cached_hashes) = None.
Proof.
  intros Hall. apply first_match_rejected. intros h c Hin.
  destruct (containers_of_elem _ _ _ Hin) as (hosters & cl & Hentry & Hcl & Hc).
  by apply (Hall _ _ Hentry cl c).
Qed.

Lemma is_cached_never_cached h s :
  never_cached →
  ∃ s' new,
    is_cached [h] true s = (Ret ∅, s') ∧ item s' = item s ∧
    events s' = events s ++ new ∧ requests_of new = [InstantAvailability [h]].
Proof.
  intros Hnever. specialize (Hnever [h] (remote s)).
  unfold is_cached. rewrite bind_run.
  unfold get_instant_availability, try_except, call. cbn [list_truthy negb].
  rewrite bind_run.
  destruct (get_instantAvailability http [h] (remote s)) as [[[ok cached_hashes]|e] w];
    simpl in Hnever.
  - destruct ok; simpl.
    + rewrite resolve_cached_true. cbn [item].
      rewrite first_match_never by (intros h' p; by apply Hnever).
      eexists _, _. split; [reflexivity|]. split; [done|]. simpl.
      split; [by rewrite <- app_assoc|].
      change (Request ?r :: ?evs) with ([Request r] ++ evs).
      by rewrite requests_of_app, requests_of_calls_for.
    + eexists _, _. split; [reflexivity|]. by split.
  - rewrite bind_run. unfold logger. rewrite emit_run. simpl.
    eexists _, _. split; [reflexivity|]. split; [done|].
    unfold add_events; simpl. rewrite <- app_assoc. by split.
Qed.

Lemma run_loop_never_cached ss s :
  never_cached →
  ∃ s' new,
    run_loop ss s = (Ret false, s') ∧
    streams (core (item s')) = streams (core (item s)) ∧
    blacklisted_streams (core (item s'))
      = blacklisted_streams (core (item s))
        ++ newly_blacklisted (blacklisted_streams (core (item s))) ss ∧
    events s' = events s ++ new ∧
    requests_of new
      = (λ stream, InstantAvailability [infohash stream])
          <$> newly_blacklisted (blacklisted_streams (core (item s))) ss.
Proof.
  intros Hnever. revert s. induction ss as [|stream rest IH]; intros s.
  { exists s, []. simpl. by rewrite !app_nil_r. }
  cbn [newly_blacklisted]. case_bool_decide as Hbl.
  { rewrite run_loop_skips_blacklisted by done. apply IH. }
  destruct (is_cached_never_cached (infohash stream) s Hnever)
    as (s1 & new1 & Hcached & Hit1 & Hev1 & Hreq1).
  rewrite (run_loop_blacklists_uncached stream rest s s1 Hbl Hcached).
  rewrite bind_run. unfold logger. rewrite emit_run, bind_run.
  unfold blacklist_stream, update_item.
  match goal with |- context [run_loop rest ?s2] =>
    destruct (IH s2) as (s' & new2 & -> & Hstreams & Hblack & Hev2 & Hreq2)
  end.
  cbn [item events add_events] in *. rewrite Hit1 in *.
  assert (∀ it, streams (core (map_core (core_blacklist stream) it)) = streams (core it)
                ∧ blacklisted_streams (core (map_core (core_blacklist stream) it))
                  = blacklisted_streams (core it) ++ [stream]) as Hmap.
  { by intros []. }
  destruct (Hmap (item s)) as [Hs Hb]. rewrite Hs, Hb in *.
  exists s', (new1 ++ [Log DEBUG
    "Blacklisting uncached hash ({stream.infohash}) for item: {item.log_string}"] ++ new2).
  split; [done|]. split; [done|].
  split; [by rewrite Hblack, <- app_assoc|].
  split; [by rewrite Hev2, Hev1, <- !app_assoc|].
  rewrite !requests_of_app, Hreq1, Hreq2. done.
Qed.

Lemma newly_blacklisted_covers bl ss stream :
  stream ∈ ss → stream ∈ bl ++ newly_blacklisted bl ss.
Proof.
  revert bl. induction ss as [|x rest IH]; intros bl Hin; [by apply elem_of_nil in Hin|].
  cbn [newly_blacklisted]. case_bool_decide as Hx.
  - apply elem_of_cons in Hin as [->|Hin]; [|by apply IH].
    apply elem_of_app. by left.
  - apply elem_of_cons in Hin as [->|Hin].
    + apply elem_of_app. right. by left.
    + specialize (IH (bl ++ [x]) Hin). by rewrite <- app_assoc in IH.
Qed.

(** X9. When the availability endpoint never reports a container that the
    finder accepts (it raises, answers with an error, or reports rejected
    containers only), [run] returns [False]; it has asked for the
    availability of one stream at a time, once for every stream that was not
    on the blacklist at its turn; afterwards every candidate stream of the
    item is on the blacklist, and a second [run] does nothing at all. *)
Theorem run_blacklists_everything s :
  never_cached →
  ∃ s' new,
    run s = (Ret false, s') ∧
    events s' = events s ++ new ∧
    requests_of new
      = (λ stream, InstantAvailability [infohash stream])
          <$> newly_blacklisted (blacklisted_streams (core (item s)))
                                (streams (core (item s))) ∧
    (∀ stream, stream ∈ streams (core (item s)) →
               stream ∈ blacklisted_streams (core (item s'))) ∧
    run s' = (Ret false, s').
Proof.
  intros Hnever. unfold run at 1. rewrite bind_run. unfold get_item.
  destruct (run_loop_never_cached (streams (core (item s))) s Hnever)
    as (s' & new & Hrun & Hstreams & Hblack & Hev & Hreq).
  exists s', new. split; [done|]. split; [done|]. split; [done|].
  assert (∀ stream, stream ∈ streams (core (item s)) →
                    stream ∈ blacklisted_streams (core (item s'))) as Hall.
  { intros stream Hin. rewrite Hblack. by apply newly_blacklisted_covers. }
  split; [done|].
  unfold run. rewrite bind_run. unfold get_item.
  apply run_loop_all_blacklisted. rewrite Hstreams. apply Hall.
Qed.

(** ** What the binding writes *)

Lemma get_torrent_info_same_item request_id s :
  item (get_torrent_info request_id s).2 = item s ∧
  active_stream (get_torrent_info request_id s).2 = active_stream s.
Proof.
  apply (keeps_get_torrent_info same_item (λ _ _ H, H) same_item_trans).
Qed.

(** X10. Binding a movie or an episode. When the container is not empty,
    the info record has its [filename] and [original_filename], and the
    first file the finder returns for the item in the container has a
    [filename], [set_active_files] returns and has written exactly three
    fields of the item: [folder] and [alternative_folder] from the info
    record, and [file], the last component of the name of that first file.
    Everything else in the item is as it was. *)
Theorem set_active_files_binds_single torrent_id container s info s1 cand rest fn ofn :
  type (item s) = "movie" ∨ type (item s) = "episode" →
  container ≠ [] →
  get_torrent_info torrent_id s = (Ret info, s1) →
  i_filename info = Some fn →
  i_original_filename info = Some ofn →
  find_required_files finder (item s) container = Candidate cand :: rest →
  ∃ s',
    set_active_files torrent_id container s = (Ret tt, s') ∧
    item s' = map_core (bound_core fn ofn (Path_name (filename cand))) (item s) ∧
    active_stream s' = active_stream s.
Proof.
  intros Htype Hc Hinfo Hfn Hofn Hfound.
  destruct (get_torrent_info_same_item torrent_id s) as [Hit1 Hact1].
  rewrite Hinfo in Hit1, Hact1; simpl in Hit1, Hact1.
  destruct container as [|f0 c0]; [done|].
  unfold set_active_files. rewrite bind_run, Hinfo.
  unfold get_item, finder_call, first, bind_file, pyfile_filename, getitem, update_item,
    emit, mbind, M_bind, mret, M_ret; simpl.
  rewrite Hit1.
  destruct (item s) as [c| | |e] eqn:Hitem; simpl in Htype;
    [|by destruct Htype..|]; simpl; repeat (rewrite Hit1; simpl); rewrite Hfound; simpl;
    rewrite Hfn, Hofn; simpl; by eexists.
Qed.

Lemma bind_file_run t cand info fn ofn s :
  i_filename info = Some fn →
  i_original_filename info = Some ofn →
  bind_file t (Candidate cand) info s =
  (Ret tt,
   {| remote := remote s;
      item := item_write t file (Path_name (filename cand))
                (item_write t alternative_folder ofn (item_write t folder fn (item s)));
      active_stream := active_stream s;
      events := events s |}).
Proof.
  intros Hfn Hofn.
  unfold bind_file, pyfile_filename, getitem, update_item, mbind, M_bind, mret, M_ret.
  by rewrite Hfn, Hofn.
Qed.

Lemma alter_middle {A} (g : A → A) (done : list A) x rest :
  alter g (length done) (done ++ x :: rest) = done ++ g x :: rest.
Proof. induction done as [|y done IH]; [done|]. simpl. by f_equal. Qed.

(** The episodes of one list are bound in turn, each through the target
    [t i] of its index; [mk] rebuilds the item around the list. *)
Lemma episodes_loop_binds (t : nat → target) (mk : list Episode → MediaItem)
    files info fn ofn :
  (∀ i f v l, item_write (t i) f v (mk l) = mk (alter (episode_set f v) i l)) →
  i_filename info = Some fn →
  i_original_filename info = Some ofn →
  ∀ eps done s,
    item s = mk (done ++ eps) →
    (∀ e, e ∈ eps → bindable files e) →
    ∃ s',
      episodes_loop t (length done) eps files info s = (Ret tt, s') ∧
      item s' = mk (done ++ (bound_episode files fn ofn <$> eps)) ∧
      active_stream s' = active_stream s.
Proof.
  intros Hmk Hfn Hofn. induction eps as [|e rest IH]; intros done s Hitem Hbind.
  { by exists s. }
  cbn [episodes_loop]. rewrite bind_run, finder_call_run.
  specialize (Hbind e) as He. unfold bindable in He.
  assert (∀ s1, item s1 = mk ((done ++ [bound_episode files fn ofn e]) ++ rest) →
                ∃ s', episodes_loop t (S (length done)) rest files info s1 = (Ret tt, s') ∧
                      item s' = mk (done ++ (bound_episode files fn ofn <$> e :: rest)) ∧
                      active_stream s' = active_stream s1) as Hnext.
  { intros s1 Hs1.
    destruct (IH (done ++ [bound_episode files fn ofn e]) s1 Hs1) as (s' & Hrun & Hit & Hact).
    { intros e' He'. apply Hbind. by right. }
    rewrite length_app in Hrun. simpl in Hrun. rewrite Nat.add_1_r in Hrun.
    exists s'. split; [done|]. split; [|done].
    by rewrite Hit, fmap_cons, <- app_assoc. }
  destruct (find_required_files finder (EpisodeItem e) files) as [|[cand|raw] found] eqn:Hf.
  - assert (bound_episode files fn ofn e = e) as Hbound.
    { unfold bound_episode. by rewrite Hf. }
    cbn [list_truthy]. rewrite bind_run. cbn [mret M_ret].
    destruct (Hnext (add_events s [FinderCall (EpisodeItem e) files]))
      as (s' & Hrun & Hit & Hact).
    { cbn [item add_events]. by rewrite Hitem, Hbound, <- app_assoc. }
    by exists s'.
  - assert (bound_episode files fn ofn e
            = episode_set file (Path_name (filename cand))
                (episode_set alternative_folder ofn (episode_set folder fn e))) as Hbound.
    { unfold bound_episode. by rewrite Hf. }
    cbn [list_truthy first]. rewrite 2!bind_run. cbn [mret M_ret].
    rewrite (bind_file_run _ _ _ fn ofn) by done.
    match goal with |- context [episodes_loop t _ rest files info ?s1] =>
      destruct (Hnext s1) as (s' & Hrun & Hit & Hact)
    end.
    { cbn [item add_events]. rewrite Hitem, !Hmk, !alter_middle, Hbound, <- app_assoc.
      done. }
    rewrite Hrun. by exists s'.
  - destruct He. by left.
Qed.

(** X11. Binding a season. When the container is not empty, the info
    record has its [filename] and [original_filename], and the finder's
    first file for each episode (if any) has a [filename], [set_active_files]
    returns and the season's episodes are, in order: bound to the first file
    the finder returns for it, for an episode with a match, and left exactly
    as it was for an episode without one. An episode without a match does
    not make the binding of the others fail. *)
Theorem set_active_files_binds_season torrent_id container s se info s1 fn ofn :
  item s = SeasonItem se →
  container ≠ [] →
  get_torrent_info torrent_id s = (Ret info, s1) →
  i_filename info = Some fn →
  i_original_filename info = Some ofn →
  (∀ e, e ∈ episodes se →
        bindable (find_required_files finder (SeasonItem se) container) e) →
  ∃ s',
    set_active_files torrent_id container s = (Ret tt, s') ∧
    item s' = SeasonItem
                (bound_season (find_required_files finder (SeasonItem se) container)
                              fn ofn se) ∧
    active_stream s' = active_stream s.
Proof.
  intros Hitem Hc Hinfo Hfn Hofn Hbind.
  destruct (get_torrent_info_same_item torrent_id s) as [Hit1 Hact1].
  rewrite Hinfo in Hit1, Hact1; simpl in Hit1, Hact1. rewrite Hitem in Hit1.
  destruct container as [|f0 c0]; [done|].
  unfold set_active_files. rewrite bind_run, Hinfo.
  cbn [list_truthy negb]. rewrite bind_run. cbn [mret M_ret list_truthy].
  rewrite bind_run. unfold get_item at 1. rewrite Hit1. cbn [type].
  rewrite bool_decide_eq_false_2 by done. rewrite bind_run. cbn [mret M_ret].
  rewrite bind_run. unfold get_item at 1. rewrite Hit1. cbn [type].
  rewrite bool_decide_eq_false_2 by done. rewrite bind_run. cbn [mret M_ret].
  rewrite bind_run. unfold get_item at 1. rewrite Hit1. cbn [type].
  rewrite bool_decide_eq_true_2 by done.
  rewrite bind_run, bind_run, finder_call_run. cbn [item_episodes].
  set (files := find_required_files finder (SeasonItem se) (f0 :: c0)) in *.
  destruct (episodes_loop_binds EpisodeOf
              (λ l, SeasonItem {| season_core := season_core se;
                                  season_number := season_number se; episodes := l |})
              files info fn ofn) with (eps := episodes se) (done := @nil Episode)
              (s := add_events s1 [FinderCall (SeasonItem se) (f0 :: c0)])
    as (s2 & Hloop & Hitem2 & Hact2); [done..| |done|].
  { cbn [item add_events]. rewrite Hit1. by destruct se. }
  cbn [length] in Hloop. rewrite Hloop.
  rewrite bind_run. unfold get_item. rewrite Hitem2. cbn [type app].
  rewrite bool_decide_eq_false_2 by done. cbn [mret M_ret].
  exists s2. split; [done|]. split; [done|].
  rewrite Hact2. done.
Qed.

Lemma seasons_loop_binds files info fn ofn c :
  i_filename info = Some fn →
  i_original_filename info = Some ofn →
  ∀ ss sdone s,
    item s = ShowItem {| show_core := c; seasons := sdone ++ ss |} →
    (∀ se e, se ∈ ss → e ∈ episodes se → bindable files e) →
    ∃ s',
      seasons_loop (length sdone) ss files info s = (Ret tt, s') ∧
      item s' = ShowItem {| show_core := c;
                            seasons := sdone ++ (bound_season files fn ofn <$> ss) |} ∧
      active_stream s' = active_stream s.
Proof.
  intros Hfn Hofn. induction ss as [|se rest IH]; intros sdone s Hitem Hbind.
  { by exists s. }
  cbn [seasons_loop]. rewrite bind_run.
  destruct (episodes_loop_binds (EpisodeOfSeason (length sdone))
              (λ l, ShowItem {| show_core := c;
                                seasons := sdone ++
                                  {| season_core := season_core se;
                                     season_number := season_number se;
                                     episodes := l |} :: rest |})
              files info fn ofn) with (eps := episodes se) (done := @nil Episode) (s := s)
    as (s1 & Hloop & Hitem1 & Hact1); [|done..| | |].
  { intros i f v l. cbn [item_write show_core seasons]. by rewrite alter_middle. }
  { rewrite Hitem. by destruct se. }
  { intros e He. apply (Hbind se e); [by left|done]. }
  cbn [length] in Hloop. rewrite Hloop. cbn [app] in Hitem1.
  destruct (IH (sdone ++ [bound_season files fn ofn se]) s1) as (s' & Hrun & Hit & Hact).
  { by rewrite Hitem1, <- app_assoc. }
  { intros se' e Hse'. apply Hbind. by right. }
  rewrite length_app in Hrun. simpl in Hrun. rewrite Nat.add_1_r in Hrun.
  exists s'. split; [done|]. split; [|congruence].
  by rewrite Hit, fmap_cons, <- app_assoc.
Qed.

(** X12. Binding a show. Under the same conditions as for a season,
    [set_active_files] returns and every episode of every season of the show
    is bound to the first file the finder returns for it among the files
    matched for the show, or left exactly as it was when the finder returns
    none; the show itself and its seasons are otherwise unchanged. *)
Theorem set_active_files_binds_show torrent_id container s sh info s1 fn ofn :
  item s = ShowItem sh →
  container ≠ [] →
  get_torrent_info torrent_id s = (Ret info, s1) →
  i_filename info = Some fn →
  i_original_filename info = Some ofn →
  (∀ se e, se ∈ seasons sh → e ∈ episodes se →
           bindable (find_required_files finder (ShowItem sh) container) e) →
  ∃ s',
    set_active_files torrent_id container s = (Ret tt, s') ∧
    item s' = ShowItem
                {| show_core := show_core sh;
                   seasons := bound_season
                                (find_required_files finder (ShowItem sh) container) fn ofn
                                <$> seasons sh |} ∧
    active_stream s' = active_stream s.
Proof.
  intros Hitem Hc Hinfo Hfn Hofn Hbind.
  destruct (get_torrent_info_same_item torrent_id s) as [Hit1 Hact1].
  rewrite Hinfo in Hit1, Hact1; simpl in Hit1, Hact1. rewrite Hitem in Hit1.
  destruct container as [|f0 c0]; [done|].
  unfold set_active_files. rewrite bind_run, Hinfo.
  cbn [list_truthy negb]. rewrite bind_run. cbn [mret M_ret list_truthy].
  rewrite bind_run. unfold get_item at 1. rewrite Hit1. cbn [type].
  rewrite bool_decide_eq_false_2 by done. rewrite bind_run. cbn [mret M_ret].
  rewrite bind_run. unfold get_item at 1. rewrite Hit1. cbn [type].
  rewrite bool_decide_eq_true_2 by done.
  rewrite bind_run, bind_run, finder_call_run. cbn [item_seasons].
  set (files := find_required_files finder (ShowItem sh) (f0 :: c0)) in *.
  destruct (seasons_loop_binds files info fn ofn (show_core sh) Hfn Hofn
              (seasons sh) [] (add_events s1 [FinderCall (ShowItem sh) (f0 :: c0)]))
    as (s2 & Hloop & Hitem2 & Hact2); [|done|].
  { cbn [item add_events app]. rewrite Hit1. by destruct sh. }
  cbn [length] in Hloop. rewrite Hloop. cbn [app] in Hitem2.
  rewrite bind_run. unfold get_item at 1. rewrite Hitem2. cbn [type].
  rewrite bool_decide_eq_false_2 by done. rewrite bind_run. cbn [mret M_ret].
  rewrite bind_run. unfold get_item. rewrite Hitem2. cbn [type].
  rewrite bool_decide_eq_false_2 by done. cbn [mret M_ret].
  exists s2. split; [done|]. split; [done|]. by rewrite Hact2.
Qed.

(** X13. [set_active_files] without a container falls back on the info
    record: without [files] in it, it raises [KeyError]; with [files], the
    finder is called once, on the raw entries of [info["files"]] (with
    [path] and [bytes], not [filename] and [filesize]), and when it finds
    nothing the method returns without writing anything. *)
Theorem set_active_files_without_container torrent_id s info s1 :
  get_torrent_info torrent_id s = (Ret info, s1) →
  match i_files info with
  | None => set_active_files torrent_id [] s = (Raise (KeyError "files"), s1)
  | Some fs =>
      find_required_files finder (item s) (RawInfo <$> fs) = [] →
      set_active_files torrent_id [] s
      = (Ret tt, add_events s1 [FinderCall (item s) (RawInfo <$> fs)])
  end.
Proof.
  intros Hinfo.
  destruct (get_torrent_info_same_item torrent_id s) as [Hit1 _].
  rewrite Hinfo in Hit1; simpl in Hit1.
  unfold set_active_files. rewrite bind_run, Hinfo. cbn [list_truthy negb].
  destruct (i_files info) as [fs|]; [|done].
  intros Hnone. cbn [getitem]. rewrite !bind_run. cbn [mret M_ret].
  unfold get_item. rewrite bind_run, finder_call_run, Hit1, Hnone. done.
Qed.

(** X14. The three writes of a binding are not one step. For a movie or an
    episode, when the info record has [filename] but no [original_filename],
    [set_active_files] raises [KeyError] after it has written [folder]: the
    item is left with the new folder and with its old
    [alternative_folder] and [file]. *)
Theorem set_active_files_partial_binding torrent_id container s info s1 cand rest fn :
  type (item s) = "movie" ∨ type (item s) = "episode" →
  container ≠ [] →
  get_torrent_info torrent_id s = (Ret info, s1) →
  i_filename info = Some fn →
  i_original_filename info = None →
  find_required_files finder (item s) container = Candidate cand :: rest →
  ∃ s',
    set_active_files torrent_id container s = (Raise (KeyError "original_filename"), s') ∧
    item s' = map_core (core_set folder fn) (item s).
Proof.
  intros Htype Hc Hinfo Hfn Hofn Hfound.
  destruct (get_torrent_info_same_item torrent_id s) as [Hit1 Hact1].
  rewrite Hinfo in Hit1, Hact1; simpl in Hit1, Hact1.
  destruct container as [|f0 c0]; [done|].
  unfold set_active_files. rewrite bind_run, Hinfo.
  unfold get_item, finder_call, first, bind_file, pyfile_filename, getitem, update_item,
    emit, mbind, M_bind, mret, M_ret; simpl.
  rewrite Hit1.
  destruct (item s) as [c| | |e] eqn:Hitem; simpl in Htype;
    [|by destruct Htype..|]; simpl; repeat (rewrite Hit1; simpl); rewrite Hfound; simpl;
    rewrite Hfn, Hofn; simpl; by eexists.
Qed.

(** ** The reuse of a torrent of the account *)





End Properties.

(** * Properties of [validate] *)

Module ValidationProperties.

Import Validation.

Lemma filesize_error_none download_settings :
  filesize_error download_settings = None ↔
  (-1 ≤ movie_filesize_min download_settings)%Z ∧
  (-1 ≤ movie_filesize_max download_settings)%Z ∧
  (-1 ≤ episode_filesize_min download_settings)%Z ∧
  (-1 ≤ episode_filesize_max download_settings)%Z.
Proof.
  unfold filesize_error. repeat case_bool_decide; split; try done; try lia.
Qed.

Lemma check_account_pings time_left ping : Ping ∈ (check_account time_left ping).2.
Proof.
  unfold check_account.
  repeat match goal with
         | |- context [match ?x with _ => _ end] => destruct x
         end; simpl; by left.
Qed.

(** X15. Unless the settings pass every check (enabled, an API key, the four
    filesize settings at least [-1], a proxy URL when the proxy is enabled),
    [validate] returns [False] without pinging the account; when they do,
    it pings exactly as far as reaching the endpoint goes. *)
Theorem validate_pings_only_accepted_settings settings download_settings time_left ping :
  (¬ settings_accepted settings download_settings →
     (validate settings download_settings time_left ping).1 = false ∧
     Ping ∉ (validate settings download_settings time_left ping).2) ∧
  (settings_accepted settings download_settings →
     Ping ∈ (validate settings download_settings time_left ping).2).
Proof.
  assert (∀ n, n ≠ Ping → (false, [n]).1 = false ∧ Ping ∉ (false, [n]).2) as Hquiet.
  { intros n Hn. split; [done|]. simpl. intros Hin%list_elem_of_singleton. congruence. }
  unfold validate, settings_accepted. split.
  - intros Hno.
    destruct (enabled settings); simpl; [|by apply Hquiet].
    case_bool_decide as Hkey; simpl; [by apply Hquiet|].
    destruct (filesize_error download_settings) as [message|] eqn:Hsize;
      [by apply Hquiet|].
    apply filesize_error_none in Hsize as (Hs1 & Hs2 & Hs3 & Hs4).
    destruct (proxy_enabled settings) eqn:Hproxy; simpl.
    + case_bool_decide as Hurl; [by apply Hquiet|].
      destruct Hno. by repeat split.
    + destruct Hno. by repeat split.
  - intros (Hen & Hkey & H1 & H2 & H3 & H4 & Hproxy). rewrite Hen. simpl.
    rewrite bool_decide_eq_false_2 by done.
    rewrite (proj2 (filesize_error_none download_settings)) by done.
    destruct (proxy_enabled settings); simpl.
    + rewrite bool_decide_eq_false_2 by auto. apply check_account_pings.
    + apply check_account_pings.
Qed.

Lemma check_account_accepts time_left ping :
  (check_account time_left ping).1 = true ↔
  ∃ response info remaining,
    ping = Ret response ∧ is_ok response = true ∧ data response = Ret info ∧
    time_left (replace_Z (default "" (expiration info))) = Some remaining ∧
    user_type info = Some "premium" ∧
    (0 < default 0 (premium info))%Z.
Proof.
  unfold check_account. split.
  - destruct ping as [[ok [info|e]]|e]; simpl.
    + destruct ok; [|done].
      destruct (time_left _) as [remaining|] eqn:Hleft; [|done].
      case_bool_decide as Htype; [done|]. simpl. intros Hprem.
      apply bool_decide_eq_true_1 in Hprem.
      exists {| is_ok := true; data := Ret info |}, info, remaining.
      split; [done|]. split; [done|]. split; [done|]. split; [done|].
      split; [|lia].
      destruct (user_type info) as [ty|]; simpl in Htype.
      * by rewrite Htype.
      * discriminate Htype.
    + by destruct ok.
    + by destruct e.
  - intros (response & info & remaining & -> & Hok & Hdata & Hleft & Htype & Hprem).
    rewrite Hok, Hdata, Hleft, Htype. simpl.
    apply bool_decide_eq_true_2. lia.
Qed.

(** X16. [validate] returns [True] exactly when the settings pass every
    check, the ping answers with success, the answer is a JSON object whose
    [expiration] can be parsed, its [type] is ["premium"] and its [premium]
    is positive. In particular a premium account whose answer has no
    parsable [expiration] is not accepted: the date is parsed before the
    account type is looked at. *)
Theorem validate_accepts_iff settings download_settings time_left ping :
  (validate settings download_settings time_left ping).1 = true ↔
  settings_accepted settings download_settings ∧
  ∃ response info remaining,
    ping = Ret response ∧ is_ok response = true ∧ data response = Ret info ∧
    time_left (replace_Z (default "" (expiration info))) = Some remaining ∧
    user_type info = Some "premium" ∧
    (0 < default 0 (premium info))%Z.
Proof.
  rewrite <- check_account_accepts.
  unfold validate, settings_accepted. split.
  - destruct (enabled settings); simpl; [|done].
    case_bool_decide as Hkey; simpl; [done|].
    destruct (filesize_error download_settings) as [message|] eqn:Hsize; [done|].
    apply filesize_error_none in Hsize as (Hs1 & Hs2 & Hs3 & Hs4).
    destruct (proxy_enabled settings) eqn:Hproxy; simpl.
    + case_bool_decide as Hurl; [done|]. intros Hcheck. by repeat split.
    + intros Hcheck. by repeat split.
  - intros [(Hen & Hkey & H1 & H2 & H3 & H4 & Hproxy) Hcheck].
    rewrite Hen. simpl. rewrite bool_decide_eq_false_2 by done.
    rewrite (proj2 (filesize_error_none download_settings)) by done.
    destruct (proxy_enabled settings); simpl; [|done].
    by rewrite bool_decide_eq_false_2 by auto.
Qed.

(** X17. For every time left that Python can represent (its [seconds] lie
    in [[0, 86400)]), the message [validate] logs is the number of days when
    that is positive and ["Your account expires soon."] otherwise: the
    hours-and-minutes message is never chosen, because [hours_left] is the
    quotient of a number of hours below 24 by 60. *)
Theorem expiration_message_never_hours time_left :
  (0 ≤ seconds time_left < 86400)%Z →
  expiration_message time_left =
    if bool_decide (days time_left > 0)%Z then ExpiresInDays (days time_left)
    else ExpiresSoon.
Proof.
  intros Hsec. unfold expiration_message.
  assert (0 ≤ seconds time_left / 3600 < 24)%Z as Hhours.
  { split; [apply Z.div_pos; lia|]. apply Z.div_lt_upper_bound; lia. }
  remember (seconds time_left / 3600)%Z as hours eqn:Hh.
  assert (hours / 60 = 0)%Z as Hq by (apply Z.div_small; lia).
  unfold Z.div in Hq.
  destruct (Z.div_eucl hours 60) as [hours_left minutes_left].
  simpl in Hq. subst hours_left.
  case_bool_decide; [done|]. by rewrite bool_decide_eq_false_2 by lia.
Qed.

End ValidationProperties.


(** * Properties of the scrapers *)

Module TextProperties.

Import Text.

Lemma prefix_append sep s : String.prefix sep (sep +:+ s) = true.
Proof.
  induction sep as [|c sep IH]; simpl; [by destruct s|].
  by destruct (ascii_dec c c).
Qed.

Lemma occurs_cons c c' s :
  occurs c (String c' s) = false → c ≠ c' ∧ occurs c s = false.
Proof.
  simpl. intros [Hc Hs]%orb_false_elim. split; [|done].
  by apply Ascii.eqb_neq.
Qed.

Lemma occurs_append c a b : occurs c (a +:+ b) = occurs c a || occurs c b.
Proof. induction a as [|c' a IH]; simpl; [done|]. by rewrite IH, orb_assoc. Qed.

Lemma prefix_other c sep c' s :
  c ≠ c' → String.prefix (String c sep) (String c' s) = false.
Proof. intros Hne. simpl. by destruct (ascii_dec c c'). Qed.

Lemma split_skip_pass sep t s :
  split_skip sep (String.length t) (t +:+ s) = split_skip sep 0 s.
Proof. induction t as [|c t IH]; simpl; auto. Qed.

Lemma replace_skip_pass old new t s :
  replace_skip old new (String.length t) (t +:+ s) = replace_skip old new 0 s.
Proof. induction t as [|c t IH]; simpl; auto. Qed.

(** A string without the first character of the separator is one piece. *)
Lemma split_clean c sep s :
  occurs c s = false → split (String c sep) s = [s].
Proof.
  unfold split. induction s as [|c' s IH]; [done|].
  intros [Hne Hs]%occurs_cons.
  cbn [split_skip]. rewrite prefix_other by done. by rewrite IH.
Qed.

(** The first piece ends at the first separator when no character before
    it is the separator's first one. *)
Lemma split_marked c sep a b :
  occurs c a = false →
  split (String c sep) (a +:+ String c sep +:+ b) = a :: split (String c sep) b.
Proof.
  unfold split. induction a as [|c' a IH].
  - intros _. simpl. destruct (ascii_dec c c); [|done].
    rewrite prefix_append, Nat.sub_0_r. by rewrite split_skip_pass.
  - intros [Hne Ha]%occurs_cons.
    change (String c' a +:+ String c sep +:+ b)
      with (String c' (a +:+ String c sep +:+ b)).
    cbn [split_skip]. rewrite prefix_other by done. by rewrite IH.
Qed.

Lemma replace_clean c old new s :
  occurs c s = false → replace (String c old) new s = s.
Proof.
  unfold replace. induction s as [|c' s IH]; [done|].
  intros [Hne Hs]%occurs_cons.
  cbn [replace_skip]. rewrite prefix_other by done. by rewrite IH.
Qed.

Lemma replace_marked c old new s :
  replace (String c old) new (String c old +:+ s)
  = new +:+ replace (String c old) new s.
Proof.
  unfold replace. simpl. destruct (ascii_dec c c); [|done].
  rewrite prefix_append, Nat.sub_0_r. by rewrite replace_skip_pass.
Qed.

Lemma append_assoc a b c : (a +:+ b) +:+ c = a +:+ b +:+ c.
Proof.
  induction a as [|x a IH]; [done|].
  change (String x ((a +:+ b) +:+ c) = String x (a +:+ b +:+ c)). by rewrite IH.
Qed.

Lemma split_skip_pieces sep skip s : ∃ piece pieces, split_skip sep skip s = piece :: pieces.
Proof.
  revert skip. induction s as [|c s IH]; intros skip; cbn [split_skip];
    [eexists _, _; reflexivity|].
  destruct skip as [|skip]; [|apply IH].
  destruct (String.prefix sep (String c s)); [eexists _, _; reflexivity|].
  destruct (IH 0%nat) as (piece & pieces & ->). eexists _, _; reflexivity.
Qed.

Lemma split_pieces sep s : ∃ piece pieces, split sep s = piece :: pieces.
Proof. apply split_skip_pieces. Qed.

End TextProperties.

Module TorBoxProperties.

Import Scraping TorBox.

Lemma usable_fields torrent_data :
  usable torrent_data = true →
  ∃ h t, hash torrent_data = Some h ∧ raw_title torrent_data = Some t ∧
         h ≠ "" ∧ t ≠ "".
Proof.
  unfold usable, str_truthy.
  destruct (hash torrent_data) as [h|], (raw_title torrent_data) as [t|];
    simpl; try done; [|by rewrite andb_false_r].
  intros [Hh Ht]%andb_prop. exists h, t.
  apply negb_true_iff, bool_decide_eq_false in Hh.
  apply negb_true_iff, bool_decide_eq_false in Ht. done.
Qed.

Lemma torbox_collect_cons torrent_data rest torrents :
  collect (torrent_data :: rest) torrents
  = if usable torrent_data
    then collect rest (<[default "" (hash torrent_data)
                         := default "" (raw_title torrent_data)]> torrents)
    else collect rest torrents.
Proof. simpl. unfold usable. rewrite <- negb_andb. by destruct (_ && _). Qed.

Lemma torbox_collect_app pre post torrents :
  collect (pre ++ post) torrents = collect post (collect pre torrents).
Proof.
  revert torrents. induction pre as [|torrent_data pre IH]; intros torrents; [done|].
  rewrite <- app_comm_cons, !torbox_collect_cons. destruct (usable torrent_data); apply IH.
Qed.

(** What the loop binds was bound before or comes from a usable entry. *)
Lemma torbox_collect_sound listed torrents h t :
  collect listed torrents !! h = Some t →
  torrents !! h = Some t ∨
  ∃ torrent_data, torrent_data ∈ listed ∧ usable torrent_data = true ∧
                  hash torrent_data = Some h ∧ raw_title torrent_data = Some t.
Proof.
  revert torrents. induction listed as [|td rest IH]; intros torrents; [by left|].
  rewrite torbox_collect_cons. destruct (usable td) eqn:Hu.
  - intros [Hin|(td' & Hin & H)]%IH.
    + destruct (usable_fields td Hu) as (h' & t' & Hh & Ht & _ & _).
      rewrite Hh, Ht in Hin. simpl in Hin.
      apply lookup_insert_Some in Hin as [[<- <-]|[_ Hin]]; [|by left].
      right. exists td. split; [apply elem_of_cons; by left|done].
    + right. exists td'. split; [apply elem_of_cons; by right|done].
  - intros [Hin|(td' & Hin & H)]%IH; [by left|].
    right. exists td'. split; [apply elem_of_cons; by right|done].
Qed.

(** The loop leaves a hash alone that no usable entry carries. *)
Lemma torbox_collect_other listed torrents h :
  (∀ torrent_data, torrent_data ∈ listed → usable torrent_data = true →
                   hash torrent_data ≠ Some h) →
  collect listed torrents !! h = torrents !! h.
Proof.
  revert torrents. induction listed as [|td rest IH]; intros torrents Hother; [done|].
  assert (∀ td', td' ∈ rest → usable td' = true → hash td' ≠ Some h) as Hrest.
  { intros td' Hin. apply Hother, elem_of_cons. by right. }
  rewrite torbox_collect_cons. destruct (usable td) eqn:Hu; [|by apply IH].
  rewrite IH by done.
  destruct (usable_fields td Hu) as (h' & t' & Hh & Ht & _ & _). rewrite Hh. simpl.
  apply lookup_insert_ne. intros ->.
  apply (Hother td); [apply elem_of_cons; by left|done..].
Qed.

Lemma torbox_collect_size listed torrents :
  (size (collect listed torrents)
   ≤ size torrents + length (filter (λ torrent_data, usable torrent_data = true) listed))%nat.
Proof.
  revert torrents. induction listed as [|td rest IH]; intros torrents; [simpl; lia|].
  rewrite torbox_collect_cons, filter_cons. destruct (decide (usable td = true)) as [Hu|Hu].
  - rewrite Hu. etrans; [apply IH|]. rewrite map_size_insert. simpl.
    destruct (torrents !! _); simpl; lia.
  - apply not_true_is_false in Hu. rewrite Hu. apply IH.
Qed.

Lemma torbox_collect_empty listed torrents :
  collect listed torrents = ∅ ↔
  torrents = ∅ ∧ Forall (λ torrent_data, usable torrent_data = false) listed.
Proof.
  revert torrents. induction listed as [|td rest IH]; intros torrents.
  - simpl. split; [by intros ->|by intros [-> _]].
  - rewrite torbox_collect_cons. destruct (usable td) eqn:Hu.
    + split.
      * intros [Hne _]%IH. by apply insert_non_empty in Hne.
      * intros [_ Hall]. apply Forall_cons in Hall as [Hu' _]. congruence.
    + rewrite IH. split; intros [-> Hall]; (split; [done|]).
      * by apply Forall_cons.
      * by apply Forall_cons in Hall as [_ Hall].
Qed.

(** X18. Every stream that TorBox's [run] returns has a non-empty
    info-hash and a non-empty title, and both are those of one torrent that
    the answer lists, in an answer that is ok. *)
Theorem torbox_run_sound it answer h t :
  (run it answer).1 !! h = Some t →
  h ≠ "" ∧ t ≠ "" ∧
  ∃ response torrent_data,
    answer = Returns response ∧ is_ok response = true ∧
    torrent_data ∈ data response ∧
    hash torrent_data = Some h ∧ raw_title torrent_data = Some t.
Proof.
  unfold run, scrape. destruct answer as [response|e]; simpl; [|by rewrite lookup_empty].
  destruct (is_ok response) eqn:Hok; simpl; [|by rewrite lookup_empty].
  destruct (list_truthy (data response)); simpl; [|by rewrite lookup_empty].
  intros [Hin|(td & Hin & Hu & Hh & Ht)]%torbox_collect_sound; [by rewrite lookup_empty in Hin|].
  destruct (usable_fields td Hu) as (h' & t' & Hh' & Ht' & Hne1 & Hne2).
  rewrite Hh in Hh'. rewrite Ht in Ht'. injection Hh' as <-. injection Ht' as <-.
  repeat split; [done..|]. by exists response, td.
Qed.

(** X19. When TorBox lists several torrents with the same info-hash, the
    title that [run] returns for it is that of the last usable one (one with
    a non-empty hash and a non-empty title). *)
Theorem torbox_run_last_wins it response pre torrent_data post h t :
  is_ok response = true →
  data response = pre ++ torrent_data :: post →
  hash torrent_data = Some h → raw_title torrent_data = Some t →
  h ≠ "" → t ≠ "" →
  (∀ later, later ∈ post → usable later = true → hash later ≠ Some h) →
  (run it (Returns response)).1 !! h = Some t.
Proof.
  intros Hok Hdata Hh Ht Hne1 Hne2 Hlater.
  unfold run, scrape. rewrite Hok, Hdata. simpl.
  assert (list_truthy (pre ++ torrent_data :: post) = true) as -> by (by destruct pre).
  simpl. rewrite torbox_collect_app, torbox_collect_cons.
  assert (usable torrent_data = true) as ->.
  { unfold usable, str_truthy. rewrite Hh, Ht. by rewrite !bool_decide_eq_false_2. }
  rewrite torbox_collect_other by done. rewrite Hh, Ht. simpl.
  apply lookup_insert_Some. by left.
Qed.

(** X20. For an ok answer that lists torrents, [run] makes the one request
    and logs once; the number of streams it reports is the number of
    distinct hashes it returns, which is at most the number of usable
    entries of the listing, and it reports that none was found exactly
    when no listed entry is usable. *)
Theorem torbox_run_count it response :
  is_ok response = true → data response ≠ [] →
  ∃ torrents,
    run it (Returns response)
    = (torrents, [Execute GET (scrape_url it) None; found it torrents]) ∧
    (size torrents
     ≤ length (filter (λ torrent_data, usable torrent_data = true) (data response)))%nat ∧
    (torrents = ∅ ↔ Forall (λ torrent_data, usable torrent_data = false) (data response)).
Proof.
  intros Hok Hdata. exists (collect (data response) ∅).
  unfold run, scrape. rewrite Hok.
  assert (list_truthy (data response) = true) as -> by (by destruct (data response)).
  simpl. split; [done|]. split.
  - etrans; [apply torbox_collect_size|]. by rewrite map_size_empty.
  - rewrite torbox_collect_empty. split; [by intros [_ Hall]|by split].
Qed.

(** X21. A failed request whose exception is a [RequestException] (or a
    [ReadTimeout], which is one) is dropped without a word when the
    response it carries is falsy for every error status, as a
    [requests.Response] is: [run] returns [{}] and logs nothing, also for
    the statuses 418 and 500 that its handler names. *)
Theorem torbox_run_drops_request_exception it response :
  (∀ r, response = Some r → truth r = true → ¬ (400 ≤ status_code r < 600)%Z) →
  run it (Raises (RequestException response))
  = (∅, [Execute GET (scrape_url it) None]) ∧
  run it (Raises (ReadTimeout response))
  = (∅, [Execute GET (scrape_url it) None]).
Proof.
  intros Hok.
  assert (has_status response 418 = false ∧ has_status response 500 = false) as [H1 H2].
  { destruct response as [r|]; [|done]. simpl.
    destruct (truth r) eqn:Ht; [|done]. specialize (Hok r eq_refl Ht). simpl.
    split; apply bool_decide_eq_false_2; lia. }
  unfold run. simpl. by rewrite H1, H2.
Qed.

(** X22. TorBox's [validate] returns [True] exactly when the scraper is
    enabled, the timeout is positive and the test request is answered ok;
    it makes that request only when the first two hold, and it never
    raises. *)
Theorem torbox_validate_accepts_iff settings answer :
  ((validate settings answer).1 = true ↔
   enabled settings = true ∧ (0 < timeout settings)%Z ∧
   ∃ response, answer = Returns response ∧ is_ok response = true) ∧
  requests_of (validate settings answer).2
  = if enabled settings && bool_decide (0 < timeout settings)%Z
    then [Execute GET validate_url None] else [].
Proof.
  unfold validate. destruct (enabled settings); simpl;
    [|split; [|done]; split; [done|]; by intros [Hen _]].
  case_bool_decide as Htimeout; simpl.
  - rewrite bool_decide_eq_false_2 by lia. split; [|done].
    split; [done|]. intros (_ & Hpos & _). lia.
  - rewrite bool_decide_eq_true_2 by lia.
    destruct answer as [response|e]; simpl; (split; [|done]).
    + split; [|by intros (_ & _ & r & [= <-] & Hok)].
      intros Hok. split; [done|]. split; [lia|]. by exists response.
    + split; [done|]. by intros (_ & _ & response & [=] & _).
Qed.

End TorBoxProperties.

Module MediafusionProperties.

Import Text TextProperties Scraping Mediafusion.

Lemma connect_accepts app_settings self encrypted manifest :
  (connect app_settings self encrypted manifest).1.1 = true ↔
  (∃ response s, encrypted = Returns response ∧ data response = Some s) ∧
  ∃ response, manifest = Returns response ∧ is_ok response = true.
Proof.
  unfold connect. destruct encrypted as [response|e]; simpl.
  - destruct (data response) as [s|] eqn:Hdata; simpl.
    + destruct manifest as [answer|e]; simpl.
      * split; [intros Hok; split; [by exists response, s|by exists answer]|].
        by intros (_ & answer' & [= <-] & Hok).
      * split; [done|]. by intros (_ & answer & [=] & _).
    + split; [done|]. intros ((response' & s & [= <-] & Hs) & _). congruence.
  - split; [done|]. by intros ((response & s & [=] & _) & _).
Qed.

(** X23. Mediafusion's [validate] returns [True] exactly when the scraper
    is enabled, has a URL, a positive timeout and a catalog, one of the two
    downloaders is enabled, the encryption request returns a body with an
    ["encrypted_str"], and the manifest request is answered ok. Whether
    the encryption request itself was answered ok plays no part. *)
Theorem mediafusion_validate_accepts_iff app_settings self encrypted manifest :
  (validate app_settings self encrypted manifest).1.1 = true ↔
  enabled (mediafusion app_settings) = true ∧
  url (mediafusion app_settings) ≠ "" ∧
  (0 < timeout (mediafusion app_settings))%Z ∧
  catalogs (mediafusion app_settings) ≠ [] ∧
  (Downloaders.enabled (real_debrid app_settings) = true ∨
   Downloaders.enabled (torbox app_settings) = true) ∧
  (∃ response s, encrypted = Returns response ∧ data response = Some s) ∧
  ∃ response, manifest = Returns response ∧ is_ok response = true.
Proof.
  unfold validate.
  destruct (enabled (mediafusion app_settings)); simpl; [|by split; [|intros [? _]]].
  case_bool_decide as Hurl; simpl; [by split; [|intros (_ & ? & _)]|].
  case_bool_decide as Htimeout; simpl; [split; [done|intros (_ & _ & ? & _); lia]|].
  destruct (catalogs (mediafusion app_settings)) as [|catalog rest] eqn:Hcat; simpl;
    [by split; [|intros (_ & _ & _ & ? & _)]|].
  destruct (Downloaders.enabled (real_debrid app_settings)) eqn:Hrd.
  - rewrite connect_accepts. split.
    + intros [Henc Hman]. repeat split; [done|lia|done|by left|done..].
    + by intros (_ & _ & _ & _ & _ & Henc & Hman).
  - destruct (Downloaders.enabled (torbox app_settings)) eqn:Htb.
    + rewrite connect_accepts. split.
      * intros [Henc Hman]. repeat split; [done|lia|done|by right|done..].
      * by intros (_ & _ & _ & _ & _ & Henc & Hman).
    + simpl. split; [done|]. by intros (_ & _ & _ & _ & [?|?] & _).
Qed.

(** X24. The requests of Mediafusion's [validate] are none, the
    encryption request, or the encryption request followed by the manifest
    request. The encryption request names Real-Debrid and carries its key
    whenever Real-Debrid is enabled, also when TorBox is enabled too, and
    names TorBox otherwise. The manifest is only asked for after the
    encryption has returned a string, which is then the scraper's
    [encrypted_string]; otherwise [encrypted_string] is as before. *)
Theorem mediafusion_validate_requests app_settings self encrypted manifest :
  let settings := mediafusion app_settings in
  let chosen := if Downloaders.enabled (real_debrid app_settings)
                then ("realdebrid", real_debrid app_settings)
                else ("torbox", torbox app_settings) in
  let post := Execute POST (url settings +:+ "/encrypt-user-data")
                (Some {| sv := Some chosen.1; tk := Downloaders.api_key chosen.2;
                         sc := catalogs settings |}) in
  let get := Execute GET (url settings +:+ "/manifest.json") None in
  let after := validate app_settings self encrypted manifest in
  (requests_of after.2 = [] ∧ after.1.2 = self) ∨
  (requests_of after.2 = [post] ∧
   encrypted_string after.1.2 = encrypted_string self) ∨
  (requests_of after.2 = [post; get] ∧
   ∃ response s, encrypted = Returns response ∧ data response = Some s ∧
                 encrypted_string after.1.2 = Some s).
Proof.
  intros settings chosen post get after. subst after. unfold validate.
  fold settings.
  destruct (enabled settings); simpl; [|by left].
  case_bool_decide as Hurl; simpl; [by left|].
  case_bool_decide as Htimeout; simpl; [by left|].
  destruct (list_truthy (catalogs settings)); simpl; [|by left].
  assert (∀ name key,
            (name, key) = (chosen.1, Downloaders.api_key chosen.2) →
            let after := connect app_settings (set_downloader name key self)
                           encrypted manifest in
            (requests_of after.2 = [] ∧ after.1.2 = self) ∨
            (requests_of after.2 = [post] ∧
             encrypted_string after.1.2 = encrypted_string self) ∨
            (requests_of after.2 = [post; get] ∧
             ∃ response s, encrypted = Returns response ∧ data response = Some s ∧
                           encrypted_string after.1.2 = Some s)) as Hconnect.
  { intros name key [= -> ->]. unfold connect. fold settings. simpl.
    destruct encrypted as [response|e]; simpl; [|by right; left].
    destruct (data response) as [s|] eqn:Hdata; simpl; [|by right; left].
    right; right. destruct manifest as [answer|e]; simpl;
      (split; [done|by exists response, s]). }
  subst chosen.
  destruct (Downloaders.enabled (real_debrid app_settings)); [by apply Hconnect|].
  destruct (Downloaders.enabled (torbox app_settings)); [by apply Hconnect|].
  by left.
Qed.

Lemma mediafusion_collect_app pre post torrents :
  collect (pre ++ post) torrents
  = match collect pre torrents with
    | (Returns torrents, log) =>
        let '(result, log') := collect post torrents in (result, log ++ log')
    | (Raises e, log) => (Raises e, log)
    end.
Proof.
  revert torrents. induction pre as [|stream pre IH]; intros torrents.
  - simpl. by destruct (collect post torrents).
  - rewrite <- app_comm_cons. simpl.
    destruct (stream_step stream) as [[message| |info_hash raw_title]|e]; [|done..].
    rewrite IH. destruct (collect pre torrents) as [[torrents'|e] log]; [|done].
    by destruct (collect post torrents').
Qed.

(** The loop returns when no stream lacks an attribute. *)
Lemma mediafusion_collect_returns streams torrents :
  Forall (λ stream, description stream ≠ None ∧ stream_url stream ≠ None) streams →
  ∃ torrents' log, collect streams torrents = (Returns torrents', log).
Proof.
  intros Hall. revert torrents.
  induction Hall as [|stream rest [Hd Hu] Hall IH]; intros torrents; [eexists _, _; reflexivity|].
  simpl. unfold stream_step.
  destruct (description stream) as [d|]; [|done].
  destruct (stream_url stream) as [u|]; [|done].
  destruct (split size_mark d) as [|first [|second pieces]].
  - destruct (IH torrents) as (torrents' & log & ->). eexists _, _; reflexivity.
  - destruct (IH torrents) as (torrents' & log & ->). eexists _, _; reflexivity.
  - destruct (split hash_mark u) as [|base [|info_hash rest']].
    + destruct (IH torrents) as (torrents' & log & ->). eexists _, _; reflexivity.
    + destruct (IH torrents) as (torrents' & log & ->). eexists _, _; reflexivity.
    + destruct (_ || _); apply IH.
Qed.

(** The loop raises when a stream lacks its description. *)
Lemma mediafusion_collect_raises streams torrents stream :
  stream ∈ streams → description stream = None →
  ∃ log, collect streams torrents = (Raises (OtherException "AttributeError"), log).
Proof.
  intros Hin Hd. revert torrents.
  induction streams as [|stream' rest IH]; intros torrents; [by apply elem_of_nil in Hin|].
  assert (stream' = stream ∨ stream ∈ rest) as [->|Hrest]
    by (apply elem_of_cons in Hin as [->|?]; auto).
  - simpl. unfold stream_step. rewrite Hd. eexists; reflexivity.
  - simpl. unfold stream_step.
    destruct (description stream') as [d|]; [|eexists; reflexivity].
    destruct (split size_mark d) as [|first [|second pieces]].
    + destruct (IH Hrest torrents) as (log & ->). eexists; reflexivity.
    + destruct (IH Hrest torrents) as (log & ->). eexists; reflexivity.
    + destruct (stream_url stream') as [u|]; [|eexists; reflexivity].
      destruct (split hash_mark u) as [|base [|info_hash rest']].
      * destruct (IH Hrest torrents) as (log & ->). eexists; reflexivity.
      * destruct (IH Hrest torrents) as (log & ->). eexists; reflexivity.
      * destruct (_ || _); apply (IH Hrest).
Qed.

(** What the loop binds was bound before or is the entry of a stream. *)
Lemma mediafusion_collect_sound streams torrents torrents' log h t :
  collect streams torrents = (Returns torrents', log) →
  torrents' !! h = Some t →
  torrents !! h = Some t ∨
  ∃ stream, stream ∈ streams ∧ stream_step stream = Returns (Entry h t).
Proof.
  revert torrents log. induction streams as [|stream rest IH]; intros torrents log.
  - simpl. intros [= <- <-]. by left.
  - simpl. destruct (stream_step stream) as [[message| |info_hash raw_title]|e] eqn:Hstep;
      [| | |done].
    + destruct (collect rest torrents) as [result log'] eqn:Hrest.
      intros [= -> <-] Hin. destruct (IH _ _ Hrest Hin) as [?|(s & Hs & Hentry)]; [by left|].
      right. exists s. split; [apply elem_of_cons; by right|done].
    + intros Hrest Hin. destruct (IH _ _ Hrest Hin) as [?|(s & Hs & Hentry)]; [by left|].
      right. exists s. split; [apply elem_of_cons; by right|done].
    + intros Hrest Hin. destruct (IH _ _ Hrest Hin) as [Hold|(s & Hs & Hentry)].
      * apply lookup_insert_Some in Hold as [[<- <-]|[_ Hold]]; [|by left].
        right. exists stream. split; [apply elem_of_cons; by left|done].
      * right. exists s. split; [apply elem_of_cons; by right|done].
Qed.

Lemma stream_step_entry stream h t :
  stream_step stream = Returns (Entry h t) → h ≠ "" ∧ t ≠ "".
Proof.
  unfold stream_step.
  destruct (description stream) as [d|]; [|done].
  destruct (split size_mark d) as [|first [|second pieces]]; [done..|].
  destruct (stream_url stream) as [u|]; [|done].
  destruct (split hash_mark u) as [|base [|info_hash rest']]; [done..|].
  destruct (bool_decide (info_hash = "")) eqn:Hh; [done|].
  destruct (bool_decide (replace folder_mark "" first = "")) eqn:Ht; [done|].
  simpl. intros [= <- <-].
  by apply bool_decide_eq_false in Hh, Ht.
Qed.

(** How the loop body reads a stream as Mediafusion lists them. *)
Lemma stream_step_listed title details base h :
  occurs "010" title = false →
  occurs "?" base = false → occurs "?" h = false →
  h ≠ "" → replace folder_mark "" title ≠ "" →
  stream_step (listed title details base h)
  = Returns (Entry h (replace folder_mark "" title)).
Proof.
  intros Htitle Hbase Hh Hne1 Hne2.
  assert (split size_mark (folder_mark +:+ title +:+ size_mark +:+ details)
          = (folder_mark +:+ title) :: split size_mark details) as Hd.
  { rewrite <- append_assoc. apply (split_marked "010" "💾").
    by rewrite occurs_append, Htitle. }
  assert (replace folder_mark "" (folder_mark +:+ title)
          = replace folder_mark "" title) as Ht
    by apply (replace_marked "240" _ "" title).
  assert (split hash_mark (base +:+ hash_mark +:+ h) = [base; h]) as Hu.
  { unfold hash_mark. rewrite split_marked by done. by rewrite split_clean. }
  unfold stream_step, listed. cbn [description stream_url].
  rewrite Hd, Hu, Ht.
  destruct (split_pieces size_mark details) as (piece & pieces & ->).
  by rewrite !bool_decide_eq_false_2.
Qed.

Section Scrape.

Variable _get_stremio_identifier : item → option string * string * string.

(** X25. Every stream that Mediafusion's [run] returns has a non-empty
    info-hash and a non-empty title, and both are read from one stream of
    the answer, in an answer that is ok. *)
Theorem mediafusion_run_sound settings self it answer h t :
  (run _get_stremio_identifier settings self it answer).1 !! h = Some t →
  h ≠ "" ∧ t ≠ "" ∧
  ∃ response stream,
    answer = Returns response ∧ is_ok response = true ∧
    stream ∈ data response ∧ stream_step stream = Returns (Entry h t).
Proof.
  unfold run, scrape. destruct it as [it|]; simpl; [|by rewrite lookup_empty].
  destruct answer as [response|e]; simpl; [|by rewrite lookup_empty].
  destruct (is_ok response) eqn:Hok; simpl; [|by rewrite lookup_empty].
  case_bool_decide as Hlen; simpl; [by rewrite lookup_empty|].
  destruct (collect (data response) ∅) as [[torrents|e] log] eqn:Hcollect; simpl;
    [|by rewrite lookup_empty].
  intros Hin. destruct (mediafusion_collect_sound _ _ _ _ _ _ Hcollect Hin) as [Hold|(s & Hs & Hentry)];
    [by rewrite lookup_empty in Hold|].
  destruct (stream_step_entry _ _ _ Hentry) as [Hne1 Hne2].
  repeat split; [done..|]. by exists response, s.
Qed.

(** X26. A stream as Mediafusion lists them (the folder mark, the title,
    the size mark and details as its description; the info-hash behind
    [?info_hash=] in its URL) that comes last in an ok answer is returned by
    [run] under its info-hash with its title, freed of further folder
    marks, whatever the details are. Here the info-hash and the title so
    freed are not empty, the title has no line break, the URL has no other
    question mark, and no earlier stream lacks an attribute. *)
Theorem mediafusion_run_reads_listed settings self it response pre title details base h :
  is_ok response = true →
  data response = pre ++ [listed title details base h] →
  Forall (λ stream, description stream ≠ None ∧ stream_url stream ≠ None) pre →
  occurs "010" title = false →
  occurs "?" base = false → occurs "?" h = false →
  h ≠ "" → replace folder_mark "" title ≠ "" →
  (run _get_stremio_identifier settings self (Some it) (Returns response)).1 !! h
  = Some (replace folder_mark "" title).
Proof.
  intros Hok Hdata Hpre Htitle Hbase Hh Hne1 Hne2.
  unfold run, scrape. rewrite Hok, Hdata. simpl.
  rewrite bool_decide_eq_false_2 by (rewrite length_app; simpl; lia).
  rewrite mediafusion_collect_app.
  destruct (mediafusion_collect_returns pre ∅ Hpre) as (torrents & log & ->).
  simpl. rewrite stream_step_listed by done. simpl.
  apply lookup_insert_Some. by left.
Qed.

(** X27. One stream without a description costs all of them: when the
    answer is ok and any of its streams lacks the description, [run]
    returns [{}], whatever the other streams are, and logs the
    [AttributeError] as an error. *)
Theorem mediafusion_run_missing_description settings self it response stream :
  is_ok response = true →
  stream ∈ data response → description stream = None →
  ∃ log,
    run _get_stremio_identifier settings self (Some it) (Returns response)
    = (∅, Execute GET (scrape_url _get_stremio_identifier settings self it) None
          :: log ++ [LogException ERROR "Mediafusion exception thrown: "
                       (OtherException "AttributeError")]).
Proof.
  intros Hok Hin Hd. unfold run, scrape. rewrite Hok. simpl.
  rewrite bool_decide_eq_false_2
    by (destruct (data response); [by apply elem_of_nil in Hin|simpl; lia]).
  destruct (mediafusion_collect_raises _ ∅ _ Hin Hd) as (log & ->). by exists log.
Qed.

(** X28. Mediafusion's [run] ends without any log entry exactly when it is
    given no item, or the answer is not ok or has no streams; in every
    other case, a raised exception included, it logs. *)
Theorem mediafusion_run_silent settings self it answer :
  logs_of (run _get_stremio_identifier settings self it answer).2 = [] ↔
  it = None ∨
  ∃ response, answer = Returns response ∧
              (is_ok response = false ∨ data response = []).
Proof.
  assert (∀ evs ev, is_request ev = false → logs_of (evs ++ [ev]) ≠ []) as Hlast.
  { intros evs ev Hev. unfold logs_of. rewrite filter_app, filter_cons.
    destruct (decide (is_request ev = false)); [|done]. by destruct (filter _ evs). }
  assert (∀ i e, is_request (handled i e) = false) as Hhandled by (by intros i []).
  assert (∀ i d, is_request (found i d) = false) as Hfound.
  { intros i d. unfold found. by destruct (dict_truthy d). }
  unfold run, scrape. destruct it as [it|]; simpl; [|by split; [left|]].
  destruct answer as [response|e]; simpl.
  - destruct (is_ok response) eqn:Hok; simpl.
    + case_bool_decide as Hlen; simpl.
      * split; [|done]. intros _. right. exists response. split; [done|right].
        destruct (data response); [done|simpl in Hlen; lia].
      * destruct (collect (data response) ∅) as [[torrents|e] log]; simpl.
        -- split.
           ++ intros Hnil. by apply (Hlast (Execute GET _ None :: log) (found it torrents)) in Hnil.
           ++ intros [[=]|(r & [= <-] & [?|Hnil])]; [congruence|].
              rewrite Hnil in Hlen. simpl in Hlen. lia.
        -- split.
           ++ intros Hnil. by apply (Hlast (Execute GET _ None :: log) (handled it e)) in Hnil.
           ++ intros [[=]|(r & [= <-] & [?|Hnil])]; [congruence|].
              rewrite Hnil in Hlen. simpl in Hlen. lia.
    + split; [|done]. intros _. right. exists response. by split; [|left].
  - split.
    + intros Hnil. by apply (Hlast [Execute GET _ None] (handled it e)) in Hnil.
    + by intros [[=]|(r & [=] & _)].
Qed.

End Scrape.

End MediafusionProperties.

(** * The properties at concrete accounts *)

Import Scenarios.

(** Instance of C1 at the two streams of [movie]: one request, at most one
    entry. *)
Lemma is_cached_break_on_first_witness :
  ∃ d s2,
    is_cached (rd := account_good_last) ["aaaa"; "bbbb"] true (start movie) = (Ret d, s2) ∧
    requests_of (events s2) = [InstantAvailability ["aaaa"; "bbbb"]] ∧
    (size d ≤ 1)%nat.
Proof.
  destruct (is_cached_break_on_first (rd := account_good_last)
              ["aaaa"; "bbbb"] (start movie))
    as (ch & s1 & d & s2 & new & _ & Hc & Hev & Hreq & Hsize & _); [done|].
  exists d, s2. rewrite Hev. simpl. by rewrite Hreq.
Defined.

(** Instance of C9 at a response whose entry for ["aaaa"] is a list. *)
Lemma is_cached_skips_non_dict_witness :
  ∃ d s2,
    is_cached (rd := account_good_last) ["aaaa"; "bbbb"] false (start movie) = (Ret d, s2) ∧
    d !! "aaaa" = None.
Proof.
  destruct (is_cached_skips_non_dict (rd := account_good_last)
              ["aaaa"; "bbbb"] false (start movie)
              [] "aaaa" (JList [])
              [("bbbb", Hosters [("rd", [[("7", film); ("8", sample)]])])]
              _ eq_refl)
    as (d & s2 & Hc & _ & Hfresh & _).
  exists d, s2. split; [done|]. apply Hfresh. simpl.
  rewrite list_elem_of_singleton. done.
Defined.

(** C6 against the code: the account lists [good] before [bad] under the
    same hash, and the mapping of [get_torrents] binds the hash to [bad],
    not to the first one listed. *)
Lemma get_torrents_keeps_first_counterexample :
  ∃ torrents s',
    get_torrents (rd := account_good_first) 1000 (start movie) = (Ret torrents, s') ∧
    head (filter (λ t, torrent_hash t = "bbbb") [good; bad]) = Some good ∧
    torrents !! "bbbb" = Some bad ∧
    bad ≠ good.
Proof.
  eexists _, _. split; [reflexivity|]. split; [reflexivity|].
  split; [by vm_compute | discriminate].
Qed.

(** Instance of C6 in the form that holds, at the same account. *)
Lemma get_torrents_keeps_last_witness :
  ∃ torrents s',
    get_torrents (rd := account_good_first) 1000 (start movie) = (Ret torrents, s') ∧
    ∀ h, torrents !! h = last (filter (λ t, torrent_hash t = h) [good; bad]).
Proof.
  apply (get_torrents_keeps_last (rd := account_good_first) 1000 (start movie)
           [good; bad] tt eq_refl).
Defined.



(** Instance of C10 with the transport down: [add_magnet] returns [None]. *)
Lemma api_methods_never_raise_witness :
  (add_magnet (rd := offline) "bbbb" (start movie)).1 = Ret None.
Proof.
  destruct (api_methods_never_raise (rd := offline) (start movie)) as (Hmagnet & _).
  destruct (Hmagnet "bbbb") as (v & s' & Heq & Hdefault).
  rewrite Heq. simpl. f_equal. by eapply Hdefault.
Defined.

(** C7 against the code. With the film cached and the account empty, a
    timeout of the add-magnet call makes [add_magnet] return [None];
    [download] goes on to [select_files] and [set_active_files], where
    [get_torrent_info(None)] returns [{}] and [info["filename"]] raises
    [KeyError]. With the torrent on the account and the info call timing
    out, [torrent_is_downloaded] raises [KeyError] on [info["files"]]. In
    both cases the exception leaves [download]. *)
Theorem download_raises_after_failed_call :
  (download (rd := magnet_times_out) "bbbb" film_match (start movie)).1
    = Raise (KeyError "filename") ∧
  requests_of (events (download (rd := magnet_times_out) "bbbb" film_match (start movie)).2)
    = [Torrents 1000; AddMagnet "bbbb"; SelectFiles None [IdKey "7"]] ∧
  (download (rd := info_times_out) "bbbb" film_match (start movie)).1
    = Raise (KeyError "files").
Proof. by vm_compute. Qed.

(** C4 against the code. [run] on [movie]: the first stream has no cached
    match and is blacklisted, the second has one, and the add-magnet call
    of the download sequence times out. [run] does not return [True]: the
    [KeyError] raised in [set_active_files] leaves it. *)
Theorem run_raises_after_failed_magnet :
  (run (rd := magnet_times_out) (start movie)).1 = Raise (KeyError "filename") ∧
  blacklisted_streams (core (item (run (rd := magnet_times_out) (start movie)).2))
    = [stream1] ∧
  requests_of (events (run (rd := magnet_times_out) (start movie)).2)
    = [InstantAvailability ["aaaa"]; InstantAvailability ["bbbb"];
       Torrents 1000; AddMagnet "bbbb"; SelectFiles None [IdKey "7"]].
Proof. by vm_compute. Qed.

(** C5 against the code. The settings pass the checks of [validate]. The
    finder built in [__init__] carries the episode bounds: for a movie it
    lets a file of 100 MB through, which the movie bounds (from 200 MB)
    reject. *)
Theorem movie_gate_uses_episode_bounds :
  validate_filesizes settings = true ∧
  (min_filesize (init_finder settings), max_filesize (init_finder settings))
    = class_bounds settings (EpisodeItem {| episode_core := core movie; episode_number := 1 |}) ∧
  (min_filesize (init_finder settings), max_filesize (init_finder settings))
    ≠ class_bounds settings movie ∧
  passes_filesize_gate (init_finder settings) small_size = true ∧
  within (class_bounds settings movie).1 (class_bounds settings movie).2 small_size = false.
Proof. by vm_compute. Qed.

(** * The further properties at concrete accounts *)

Import Series.

(** Instance of X8 at a movie whose two streams are on the blacklist. *)
Lemma run_all_blacklisted_witness :
  run (rd := account_good_last) (start tried) = (Ret false, start tried).
Proof.
  apply (run_all_blacklisted (rd := account_good_last) (start tried)).
  intros stream Hin. simpl in *.
  apply elem_of_cons in Hin as [->|Hin%list_elem_of_singleton].
  - apply elem_of_cons. right. apply elem_of_cons. by left.
  - subst stream. apply elem_of_cons. by left.
Defined.

(** Instance of X9 at an account for which only samples are cached: both
    streams of [movie] are asked about, one at a time, and blacklisted. *)
Lemma run_blacklists_everything_witness :
  ∃ s',
    run (rd := only_samples) (start movie) = (Ret false, s') ∧
    requests_of (events s')
      = [InstantAvailability ["aaaa"]; InstantAvailability ["bbbb"]] ∧
    blacklisted_streams (core (item s')) = [stream1; stream2].
Proof.
  destruct (run_blacklists_everything (rd := only_samples) (start movie))
    as (s' & new & Hrun & Hev & Hreq & _ & _).
  - intros hashes w. simpl. intros _ it h p Hin.
    apply list_elem_of_fmap in Hin as (h' & [= -> ->] & _).
    intros container_list c Hl Hc. simpl in Hl.
    apply list_elem_of_singleton in Hl as ->.
    apply list_elem_of_singleton in Hc as ->.
    by destruct it.
  - exists s'. split; [exact Hrun|]. split.
    + rewrite Hev. simpl. by rewrite Hreq.
    + assert (s' = (run (rd := only_samples) (start movie)).2) as ->
        by (by rewrite Hrun).
      vm_compute. reflexivity.
Defined.

(** Instance of X10 at the movie and the match of the film. *)
Lemma set_active_files_binds_single_witness :
  ∃ s',
    set_active_files (rd := account_good_last) (Some "GOOD1") film_match (start movie)
    = (Ret tt, s') ∧
    item_folder (core (item s')) = Some "Movie" ∧
    item_alternative_folder (core (item s')) = Some "Movie.2020" ∧
    item_file (core (item s')) = Some "movie.mkv".
Proof.
  destruct (set_active_files_binds_single (rd := account_good_last)
              (Some "GOOD1") film_match (start movie) (info_with good_files)
              (add_events (start movie) [Request (TorrentInfo "GOOD1")])
              {| filename := "movie.mkv"; filesize := 1200000000; id := IdKey "7" |}
              [] "Movie" "Movie.2020")
    as (s' & Hrun & Hitem & _); try reflexivity; [by left|done|].
  exists s'. split; [exact Hrun|]. by rewrite Hitem.
Defined.

(** Instance of X11 at the first season and the pack: both episodes are
    bound, each to its own file, and the sample is passed over. *)
Lemma set_active_files_binds_season_witness :
  ∃ s' se,
    set_active_files (rd := account pack_info) (Some "PACK1") pack (start (SeasonItem season1))
    = (Ret tt, s') ∧
    item s' = SeasonItem se ∧
    (λ e, item_file (episode_core e)) <$> episodes se
    = [Some "Show.E01.mkv"; Some "Show.E02.mkv"].
Proof.
  destruct (set_active_files_binds_season (rd := account pack_info)
              (Some "PACK1") pack (start (SeasonItem season1)) season1 pack_info
              (add_events (start (SeasonItem season1)) [Request (TorrentInfo "PACK1")])
              "Show" "Show.1080p")
    as (s' & Hrun & Hitem & _); try reflexivity; [done| |].
  - intros e He. simpl in He.
    apply elem_of_cons in He as [->|He%list_elem_of_singleton]; [|subst e];
      vm_compute; exact I.
  - eexists s', _. split; [exact Hrun|]. split; [exact Hitem|]. reflexivity.
Defined.

(** Instance of X12 at the show and the pack: the episodes of both seasons
    are bound. *)
Lemma set_active_files_binds_show_witness :
  ∃ s' sh,
    set_active_files (rd := account pack_info) (Some "PACK1") pack (start (ShowItem show))
    = (Ret tt, s') ∧
    item s' = ShowItem sh ∧
    (λ se, (λ e, item_file (episode_core e)) <$> episodes se) <$> seasons sh
    = [[Some "Show.E01.mkv"; Some "Show.E02.mkv"]; [Some "Show.E03.mkv"]].
Proof.
  destruct (set_active_files_binds_show (rd := account pack_info)
              (Some "PACK1") pack (start (ShowItem show)) show pack_info
              (add_events (start (ShowItem show)) [Request (TorrentInfo "PACK1")])
              "Show" "Show.1080p")
    as (s' & Hrun & Hitem & _); try reflexivity; [done| |].
  - intros se e Hse He. simpl in Hse.
    apply elem_of_cons in Hse as [->|Hse%list_elem_of_singleton]; [|subst se];
      simpl in He.
    + apply elem_of_cons in He as [->|He%list_elem_of_singleton]; [|subst e];
        vm_compute; exact I.
    + apply list_elem_of_singleton in He as ->. vm_compute; exact I.
  - eexists s', _. split; [exact Hrun|]. split; [exact Hitem|]. reflexivity.
Defined.

(** Instance of X13: no container and an info record without [files]. *)
Lemma set_active_files_without_container_witness :
  set_active_files (rd := account bare_info) (Some "NEW3") [] (start movie)
  = (Raise (KeyError "files"),
     add_events (start movie) [Request (TorrentInfo "NEW3")]).
Proof.
  apply (set_active_files_without_container (rd := account bare_info)
           (Some "NEW3") (start movie) bare_info).
  reflexivity.
Defined.

(** Instance of X14: the info record has no [original_filename], and the
    movie is left with its folder set and without a file. *)
Lemma set_active_files_partial_binding_witness :
  ∃ s',
    set_active_files (rd := account bare_info) (Some "NEW3") film_match (start movie)
    = (Raise (KeyError "original_filename"), s') ∧
    item_folder (core (item s')) = Some "Movie" ∧
    item_alternative_folder (core (item s')) = None ∧
    item_file (core (item s')) = None.
Proof.
  destruct (set_active_files_partial_binding (rd := account bare_info)
              (Some "NEW3") film_match (start movie) bare_info
              (add_events (start movie) [Request (TorrentInfo "NEW3")])
              {| filename := "movie.mkv"; filesize := 1200000000; id := IdKey "7" |}
              [] "Movie")
    as (s' & Hrun & Hitem); try reflexivity; [by left|done|].
  exists s'. split; [exact Hrun|]. by rewrite Hitem.
Defined.

(** Instance of X17: with 22 hours left the message is the one for an
    account that expires soon. *)
Lemma expiration_message_never_hours_witness :
  Validation.expiration_message most_of_a_day = Validation.ExpiresSoon.
Proof.
  apply (ValidationProperties.expiration_message_never_hours most_of_a_day).
  simpl. lia.
Defined.

(** * The properties of the scrapers at concrete answers *)

Import Feeds.

(** Instance of X18 at the listing: the stream returned for ["aaaa"] is
    one of the listed torrents. *)
Lemma torbox_run_sound_witness :
  "aaaa" ≠ "" ∧ "Movie.2020.1080p" ≠ "" ∧
  ∃ response torrent_data,
    torbox_answer = Scraping.Returns response ∧ is_ok response = true ∧
    torrent_data ∈ data response ∧
    TorBox.hash torrent_data = Some "aaaa" ∧
    TorBox.raw_title torrent_data = Some "Movie.2020.1080p".
Proof.
  apply (TorBoxProperties.torbox_run_sound feature torbox_answer "aaaa" "Movie.2020.1080p").
  vm_compute. reflexivity.
Defined.

(** Instance of X19 at the listing: of the two titles listed for ["aaaa"]
    the second is returned. *)
Lemma torbox_run_last_wins_witness :
  (TorBox.run feature torbox_answer).1 !! "aaaa" = Some "Movie.2020.1080p".
Proof.
  apply (TorBoxProperties.torbox_run_last_wins feature
           {| is_ok := true; data := torbox_listing |}
           (take 2 torbox_listing)
           {| TorBox.raw_title := Some "Movie.2020.1080p"; TorBox.hash := Some "aaaa" |}
           (drop 3 torbox_listing)); try done.
  intros later Hin%list_elem_of_singleton. by subst later.
Defined.

(** Instance of X20 at the listing: four torrents listed, two of them
    usable, one stream found. *)
Lemma torbox_run_count_witness :
  ∃ torrents,
    TorBox.run feature torbox_answer
    = (torrents, [Scraping.Execute Scraping.GET (TorBox.scrape_url feature) None;
                  TorBox.found feature torrents]) ∧
    (size torrents
     ≤ length (filter (λ torrent_data, TorBox.usable torrent_data = true)
                      torbox_listing))%nat ∧
    (torrents = ∅ ↔
     Forall (λ torrent_data, TorBox.usable torrent_data = false) torbox_listing).
Proof.
  apply (TorBoxProperties.torbox_run_count feature
           {| is_ok := true; data := torbox_listing |}); done.
Defined.

(** Instance of X21 at the status 418. *)
Lemma torbox_run_drops_request_exception_witness :
  TorBox.run feature (Scraping.Raises (Scraping.RequestException teapot))
  = (∅, [Scraping.Execute Scraping.GET (TorBox.scrape_url feature) None]) ∧
  TorBox.run feature (Scraping.Raises (Scraping.ReadTimeout teapot))
  = (∅, [Scraping.Execute Scraping.GET (TorBox.scrape_url feature) None]).
Proof.
  apply (TorBoxProperties.torbox_run_drops_request_exception feature teapot).
  intros r [= <-]. simpl. discriminate.
Defined.

(** Instance of X25 at the two streams. *)
Lemma mediafusion_run_sound_witness :
  "aaaa" ≠ "" ∧ "Movie.2020.1080p" ≠ "" ∧
  ∃ response stream,
    Scraping.Returns {| is_ok := true; data := mediafusion_streams |}
    = Scraping.Returns response ∧ is_ok response = true ∧
    stream ∈ data response ∧
    Mediafusion.stream_step stream
    = Scraping.Returns (Mediafusion.Entry "aaaa" "Movie.2020.1080p").
Proof.
  apply (MediafusionProperties.mediafusion_run_sound identify mediafusion_settings
           scraper (Some feature)).
  vm_compute. reflexivity.
Defined.

(** Instance of X26 at the two streams: the second one is returned, the
    first one is passed over with a warning. *)
Lemma mediafusion_run_reads_listed_witness :
  (Mediafusion.run identify mediafusion_settings scraper (Some feature)
     (Scraping.Returns {| is_ok := true; data := mediafusion_streams |})).1 !! "aaaa"
  = Some "Movie.2020.1080p".
Proof.
  apply (MediafusionProperties.mediafusion_run_reads_listed identify mediafusion_settings
           scraper feature {| is_ok := true; data := mediafusion_streams |}
           [unmarked] "Movie.2020.1080p" " 1.2 GB" "http://mediafusion/stream" "aaaa");
    try done.
  by apply Forall_singleton.
Defined.

(** Instance of X27: a stream without a description behind the two
    streams. *)
Lemma mediafusion_run_missing_description_witness :
  ∃ log,
    Mediafusion.run identify mediafusion_settings scraper (Some feature)
      (Scraping.Returns {| is_ok := true; data := mediafusion_streams ++ [undescribed] |})
    = (∅, Scraping.Execute Scraping.GET
            (Mediafusion.scrape_url identify mediafusion_settings scraper feature) None
          :: log ++ [Scraping.LogException Scraping.ERROR "Mediafusion exception thrown: "
                       (Scraping.OtherException "AttributeError")]).
Proof.
  apply (MediafusionProperties.mediafusion_run_missing_description identify
           mediafusion_settings scraper feature
           {| is_ok := true; data := mediafusion_streams ++ [undescribed] |} undescribed);
    [done| |done].
  apply elem_of_app. right. by apply list_elem_of_singleton.
Defined.
